(** * The private note synchronisation engine (NoteProcessor)

    A shallow embedding of
    [yarn-project/aztec-rpc/src/note_processor/note_processor.ts]:
    the class [NoteProcessor] with its methods [isSynchronised], [process],
    [computeSiloedNullifier] and [processBlocksAndNoteSpendingInfo].

    The methods are asynchronous and call injected collaborators (key store,
    decryption, simulator, database, node, logger).  Every [await] is
    sequential, so a method is a function from the world before the call to
    an outcome and the world after it.  The world holds the only mutable field
    of the class ([syncedToBlock]), the database, the height the node would
    report, and the history of the collaborator calls made so far.

    JavaScript [number]s (block numbers, leaf indices, counters) are the
    integer-valued ones: an integer of the model stands for the number of
    that value.  An addition of two numbers gives the nearest double of the
    exact sum, ties to even ([jsAdd]); it is exact up to 2^53 and rounds
    beyond.  Numbers that are not integers, and sums beyond the largest
    double, are outside the model.

    The file has two parts.  The first holds the definitions: the data, the
    world and the monad, the engine, two stores, the vocabulary in which the
    properties are stated, and a concrete scenario.  The second holds the
    lemmas and the theorems. *)

From Stdlib Require Import ZArith List Lia Sorted.
From Stdlib.Strings Require Import Byte.
From stdpp Require Import base decidable option list.

Set Default Proof Using "Type".

(** ** Data *)

Definition Fr : Type := Z.
Definition AztecAddress : Type := Z.
Definition Buffer : Type := list byte.
Definition TxHash : Type := Buffer.
Definition PrivateKey : Type := Buffer.

(** [AztecAddress.isZero]. *)
Definition isZero (a : AztecAddress) : bool := (a =? 0)%Z.

Record PublicKey : Type := mkPublicKey { pk_x : Fr; pk_y : Fr }.

(** The handle returned by [Grumpkin.new()]. *)
Inductive Grumpkin : Type := GrumpkinCurve.

(** The decrypted payload [NoteSpendingInfo]. *)
Record NoteSpendingInfo : Type := mkNoteSpendingInfo {
  contractAddress : AztecAddress;
  storageSlot : Fr;
  notePreimage : list Fr
}.

(** [NoteSpendingInfoDao]: the spread payload plus nullifier, leaf index and
    owner, as built at lines 109-114. *)
Record NoteSpendingInfoDao : Type := mkNoteSpendingInfoDao {
  dao_info : NoteSpendingInfo;
  nullifier : Fr;
  index : Z;
  dao_publicKey : PublicKey
}.

(** [TxDao], as built at lines 174-181; [error] is always the empty string
    there and is left out. *)
Record TxDao : Type := mkTxDao {
  txHash : TxHash;
  tx_blockHash : Buffer;
  blockNumber : Z;
  origin : AztecAddress;
  tx_contractAddress : option AztecAddress
}.

#[global] Instance PublicKey_eq_dec : EqDecision PublicKey.
Proof. solve_decision. Defined.
#[global] Instance byte_eq_dec : EqDecision byte := Byte.byte_eq_dec.
#[global] Instance NoteSpendingInfo_eq_dec : EqDecision NoteSpendingInfo.
Proof. solve_decision. Defined.
#[global] Instance NoteSpendingInfoDao_eq_dec : EqDecision NoteSpendingInfoDao.
Proof. solve_decision. Defined.
#[global] Instance TxDao_eq_dec : EqDecision TxDao.
Proof. solve_decision. Defined.

(** Modelled from the spec: the block types of [@aztec/types] are not among
    the sources.  A block context carries the block number, the block hash,
    the starting leaf index of the note-commitment tree, the ordered
    transaction hashes, the ordered per-transaction contract-deployment data
    and the ordered nullifiers newly revealed in the block. *)
Record ContractData : Type := mkContractData { cd_contractAddress : AztecAddress }.

Record L2Tx : Type := mkL2Tx { newContractData : list ContractData }.

Record L2Block : Type := mkL2Block {
  number : Z;
  nextAvailableLeafIndex : Z;
  block_txs : list L2Tx;
  newNullifiers : list Fr
}.

Record L2BlockContext : Type := mkL2BlockContext {
  block : L2Block;
  blockHash : Buffer;
  txHashes : list TxHash
}.

(** Modelled from the spec: the encrypted logs of a block are an ordered list
    of per-transaction groups, each an ordered list of per-function groups,
    each an ordered list of raw buffers. *)
Record FunctionL2Logs : Type := mkFunctionL2Logs { logs : list Buffer }.
Record TxL2Logs : Type := mkTxL2Logs { functionLogs : list FunctionL2Logs }.
Record L2BlockL2Logs : Type := mkL2BlockL2Logs { txLogs : list TxL2Logs }.

(** [ProcessedData] (lines 13-26). *)
Record ProcessedData : Type := mkProcessedData {
  blockContext : L2BlockContext;
  userPertainingTxIndices : list nat;
  noteSpendingInfoDaos : list NoteSpendingInfoDao
}.

(** ** Numbers *)

(** 2^53: up to it every integer is a double. *)
Definition maxExact : Z := 9007199254740992.

(** The double nearest to an integer, ties to even.  Between 2^e and
    2^(e+1), for e of at least 53, the doubles are the multiples of
    2^(e-52). *)
Definition toDouble (z : Z) : Z :=
  let a := Z.abs z in
  if (a <? maxExact)%Z then z
  else
    let ulp := (2 ^ (Z.log2 a - 52))%Z in
    let q := (a / ulp)%Z in
    let r := (a mod ulp)%Z in
    let q' := if (2 * r <? ulp)%Z then q
              else if (ulp <? 2 * r)%Z then (q + 1)%Z
              else if Z.even q then q else (q + 1)%Z in
    (Z.sgn z * (q' * ulp))%Z.

(** [a + b] on numbers. *)
Definition jsAdd (a b : Z) : Z := toDouble (a + b).

(** ** Failures, calls and the world *)

Inductive Error : Type :=
| ErrLengthMismatch (blocks encryptedLogs : nat)
| ErrTypeError
| ErrGetTx (txIndex : nat) (blockNum : Z)
| ErrCollaborator (code : Z).

(** What a collaborator answers: a value, or a thrown error. *)
Inductive Outcome (A : Type) : Type :=
| Returns (a : A)
| Throws (e : Error).
Arguments Returns {A} a.
Arguments Throws {A} e.

Inductive LogLine : Type :=
| LogProcessingTx (h : TxHash) (blockNum : Z)
| LogAdded (nf : Fr)
| LogRemoved (nf : Fr)
| LogSynched (blockNum : Z).

Inductive Call : Type :=
| GetAccountPrivateKey (pk : PublicKey)
| GrumpkinNew
| FromEncryptedBuffer (log : Buffer)
| ComputeNullifier (c : AztecAddress) (slot : Fr) (items : list Fr)
| SiloNullifier (c : AztecAddress) (inner : Fr)
| AddNoteSpendingInfoBatch (daos : list NoteSpendingInfoDao)
| AddTxs (txs : list TxDao)
| RemoveNullifiedNoteSpendingInfo (nullifiers : list Fr) (account : PublicKey)
| GetBlockHeight
| Log (line : LogLine).

(** A finished call: it returned, or it threw. *)
Inductive Event : Type :=
| Returned (c : Call)
| Threw (c : Call) (e : Error).

#[global] Instance Error_eq_dec : EqDecision Error.
Proof. solve_decision. Defined.
#[global] Instance LogLine_eq_dec : EqDecision LogLine.
Proof. solve_decision. Defined.
#[global] Instance Call_eq_dec : EqDecision Call.
Proof. solve_decision. Defined.
#[global] Instance Event_eq_dec : EqDecision Event.
Proof. solve_decision. Defined.

(** The [Database] interface, as far as the engine uses it.  An operation
    either returns a value and the next database, or throws and leaves the
    database as it was. *)
Class Database (DB : Type) : Type := {
  addNoteSpendingInfoBatch : list NoteSpendingInfoDao -> DB -> Outcome (unit * DB);
  addTxs : list TxDao -> DB -> Outcome (unit * DB);
  removeNullifiedNoteSpendingInfo :
    list Fr -> PublicKey -> DB -> Outcome (list NoteSpendingInfoDao * DB)
}.

Record World (DB : Type) : Type := mkWorld {
  syncedToBlock : Z;
  db : DB;
  remoteBlockHeight : Outcome Z;
  history : list Event
}.
Arguments mkWorld {DB}.
Arguments syncedToBlock {DB}.
Arguments db {DB}.
Arguments remoteBlockHeight {DB}.
Arguments history {DB}.

Inductive Result (DB A : Type) : Type :=
| Ok (a : A) (w : World DB)
| Throw (e : Error) (w : World DB).
Arguments Ok {DB A}.
Arguments Throw {DB A}.

Definition world_of {DB A} (r : Result DB A) : World DB :=
  match r with Ok _ w => w | Throw _ w => w end.

(** ** The monad of engine computations *)

Definition M (DB A : Type) : Type := World DB -> Result DB A.

Definition ret {DB A} (a : A) : M DB A := fun w => Ok a w.

Definition throw {DB A} (e : Error) : M DB A := fun w => Throw e w.

Definition bind {DB A B} (m : M DB A) (k : A -> M DB B) : M DB B :=
  fun w => match m w with
           | Ok a w' => k a w'
           | Throw e w' => Throw e w'
           end.

Declare Scope engine_scope.
Delimit Scope engine_scope with engine.
Notation "x <- c1 ;; c2" := (bind c1 (fun x => c2))
  (at level 100, c1 at next level, right associativity) : engine_scope.
Notation "c1 ;; c2" := (bind c1 (fun _ => c2))
  (at level 100, right associativity) : engine_scope.
Local Open Scope engine_scope.

Definition record {DB} (ev : Event) (w : World DB) : World DB :=
  mkWorld (syncedToBlock w) (db w) (remoteBlockHeight w) (history w ++ [ev]).

(** A call to a collaborator whose answer does not touch the world. *)
Definition call {DB A} (c : Call) (answer : Outcome A) : M DB A :=
  fun w => match answer with
           | Returns a => Ok a (record (Returned c) w)
           | Throws e => Throw e (record (Threw c e) w)
           end.

(** A call to the database. *)
Definition dbCall {DB A} (c : Call) (op : DB -> Outcome (A * DB)) : M DB A :=
  fun w => match op (db w) with
           | Returns (a, d) =>
               Ok a (record (Returned c)
                       (mkWorld (syncedToBlock w) d (remoteBlockHeight w) (history w)))
           | Throws e => Throw e (record (Threw c e) w)
           end.

(** [this.log(...)] *)
Definition log {DB} (line : LogLine) : M DB unit :=
  call (Log line) (Returns tt).

(** [await this.node.getBlockHeight()] *)
Definition getBlockHeight {DB} : M DB Z :=
  fun w => call GetBlockHeight (remoteBlockHeight w) w.

Definition getSyncedToBlock {DB} : M DB Z := fun w => Ok (syncedToBlock w) w.

(** [this.syncedToBlock = n] *)
Definition setSyncedToBlock {DB} (n : Z) : M DB unit :=
  fun w => Ok tt (mkWorld n (db w) (remoteBlockHeight w) (history w)).

(** A synchronous method of an argument that may throw; it is no call to a
    collaborator and leaves no event. *)
Definition lift {DB A} (o : Outcome A) : M DB A :=
  match o with Returns a => ret a | Throws e => throw e end.

(** Reading a property of [a[i]]: a [TypeError] when [a[i]] is undefined. *)
Definition defined {DB A} (o : option A) : M DB A :=
  match o with Some a => ret a | None => throw ErrTypeError end.

(** [for (const x of l) { acc = body(acc, x) }] *)
Fixpoint forOf {DB A B} (body : B -> A -> M DB B) (l : list A) (acc : B) : M DB B :=
  match l with
  | [] => ret acc
  | x :: l' => acc' <- body acc x ;; forOf body l' acc'
  end.

(** [for (let i = from; i < from + l.length; ++i) { acc = body(i, l[i-from], acc) }] *)
Fixpoint forIndex {DB A B} (body : nat -> A -> B -> M DB B)
    (i : nat) (l : list A) (acc : B) : M DB B :=
  match l with
  | [] => ret acc
  | x :: l' => acc' <- body i x acc ;; forIndex body (S i) l' acc'
  end.

(** A JavaScript [Set<number>] keeps insertion order and ignores a second
    [add] of the same element. *)
Definition setAdd (x : nat) (s : list nat) : list nat :=
  if decide (x ∈ s) then s else s ++ [x].

(** ** The engine *)

(** Modelled from the spec: the accessors of a block context, which are not
    among the sources.  [getTxHash] is the hash at that position, if any;
    [getTx] throws for a position outside the block. *)
Definition getTxHash (ctx : L2BlockContext) (txIndex : nat) : option TxHash :=
  txHashes ctx !! txIndex.

Definition getBlockHash (ctx : L2BlockContext) : Buffer := blockHash ctx.

Definition getTx (b : L2Block) (txIndex : nat) : Outcome L2Tx :=
  match block_txs b !! txIndex with
  | Some tx => Returns tx
  | None => Throws (ErrGetTx txIndex (number b))
  end.

(** The three locals of the per-block loop of [process] (lines 87, 93, 94). *)
Record BlockScan : Type := mkBlockScan {
  logIndexWithinBlock : Z;
  scan_userPertainingTxIndices : list nat;
  scan_noteSpendingInfoDaos : list NoteSpendingInfoDao
}.

(** The three locals of [processBlocksAndNoteSpendingInfo] (lines 159-161). *)
Record Batch : Type := mkBatch {
  noteSpendingInfoDaosBatch : list NoteSpendingInfoDao;
  txDaos : list TxDao;
  batch_newNullifiers : list Fr
}.

Section NoteProcessor.

Context {DB : Type} `{!Database DB}.

(** The constructor arguments [publicKey] and [address]. *)
Variable publicKey : PublicKey.
Variable address : AztecAddress.

(** The collaborators: [keyStore.getAccountPrivateKey],
    [NoteSpendingInfo.fromEncryptedBuffer], [simulator.computeNullifier] and
    [siloNullifier]. Each may throw. *)
Variable getAccountPrivateKey : PublicKey -> Outcome PrivateKey.
Variable fromEncryptedBuffer :
  Buffer -> PrivateKey -> Grumpkin -> Outcome (option NoteSpendingInfo).
Variable computeNullifier : AztecAddress -> Fr -> list Fr -> Outcome Fr.
Variable siloNullifier : AztecAddress -> Fr -> Outcome Fr.

Abbreviation Eng := (M DB).

(** [isSynchronised] (lines 57-60). *)
Definition isSynchronised : Eng bool :=
  remoteHeight <- getBlockHeight ;;
  synced <- getSyncedToBlock ;;
  ret (synced =? remoteHeight)%Z.

(** [computeSiloedNullifier] (lines 143-147). *)
Definition computeSiloedNullifier (info : NoteSpendingInfo) : Eng Fr :=
  inner <- call (ComputeNullifier (contractAddress info) (storageSlot info) (notePreimage info))
             (computeNullifier (contractAddress info) (storageSlot info) (notePreimage info)) ;;
  call (SiloNullifier (contractAddress info) inner)
       (siloNullifier (contractAddress info) inner).

(** The body of the innermost loop of [process] (lines 105-116), for one raw
    buffer of transaction [indexOfTxInABlock].  The leaf index (line 112) is
    the sum of two numbers, taken before the conversion to a [bigint]; the
    counter (line 116) is incremented as a number. *)
Definition processLog (dataStartIndexForBlock : Z) (privateKey : PrivateKey)
    (curve : Grumpkin) (indexOfTxInABlock : nat) (st : BlockScan) (buf : Buffer)
    : Eng BlockScan :=
  noteSpendingInfo <- call (FromEncryptedBuffer buf)
                        (fromEncryptedBuffer buf privateKey curve) ;;
  st' <- match noteSpendingInfo with
         | Some info =>
             let pertaining := setAdd indexOfTxInABlock (scan_userPertainingTxIndices st) in
             nf <- computeSiloedNullifier info ;;
             ret (mkBlockScan (logIndexWithinBlock st) pertaining
                    (scan_noteSpendingInfoDaos st ++
                       [mkNoteSpendingInfoDao info nf
                          (jsAdd dataStartIndexForBlock (logIndexWithinBlock st))
                          publicKey]))
         | None => ret st
         end ;;
  ret (mkBlockScan (jsAdd (logIndexWithinBlock st') 1)
         (scan_userPertainingTxIndices st') (scan_noteSpendingInfoDaos st')).

(** The loops over the function-log groups of one transaction and over the
    buffers of each group (lines 102-118). *)
Definition processTxLogs (dataStartIndexForBlock : Z) (privateKey : PrivateKey)
    (curve : Grumpkin) (indexOfTxInABlock : nat) (txl : TxL2Logs) (st : BlockScan)
    : Eng BlockScan :=
  forOf (fun st1 fl =>
           forOf (processLog dataStartIndexForBlock privateKey curve indexOfTxInABlock)
                 (logs fl) st1)
        (functionLogs txl) st.

(** The body of the outer loop of [process] for one block (lines 86-125). *)
Definition processBlock (ctx : L2BlockContext) (encrypted : L2BlockL2Logs)
    : Eng ProcessedData :=
  let dataStartIndexForBlock := nextAvailableLeafIndex (block ctx) in
  privateKey <- call (GetAccountPrivateKey publicKey) (getAccountPrivateKey publicKey) ;;
  curve <- call GrumpkinNew (Returns GrumpkinCurve) ;;
  st <- forIndex (processTxLogs dataStartIndexForBlock privateKey curve)
          0 (txLogs encrypted) (mkBlockScan 0 [] []) ;;
  ret (mkProcessedData ctx (scan_userPertainingTxIndices st) (scan_noteSpendingInfoDaos st)).

(** The callback of [userPertainingTxIndices.map] (lines 167-182): [j] is the
    position of [txIndex] in the list of pertaining indices. *)
Definition processTx (ctx : L2BlockContext) (daos : list NoteSpendingInfoDao)
    (j : nat) (txIndex : nat) (acc : list TxDao) : Eng (list TxDao) :=
  h <- defined (getTxHash ctx txIndex) ;;
  log (LogProcessingTx h (number (block ctx))) ;;
  tx <- lift (getTx (block ctx) txIndex) ;;
  first <- defined (newContractData tx !! 0%nat) ;;
  let isContractDeployment := negb (isZero (cd_contractAddress first)) in
  deployed <- (if isContractDeployment
               then (d <- defined (daos !! j) ;; ret (Some (contractAddress (dao_info d))))
               else ret None) ;;
  ret (acc ++ [mkTxDao h (getBlockHash ctx) (number (block ctx)) address deployed]).

(** The body of the loop of [processBlocksAndNoteSpendingInfo] (lines 164-185). *)
Definition collectBlock (acc : Batch) (pd : ProcessedData) : Eng Batch :=
  txs <- forIndex (processTx (blockContext pd) (noteSpendingInfoDaos pd))
           0 (userPertainingTxIndices pd) (txDaos acc) ;;
  ret (mkBatch (noteSpendingInfoDaosBatch acc ++ noteSpendingInfoDaos pd)
         txs
         (batch_newNullifiers acc ++ newNullifiers (block (blockContext pd)))).

Definition logEach (line : Fr -> LogLine) (daos : list NoteSpendingInfoDao) : Eng unit :=
  forOf (fun _ d => log (line (nullifier d))) daos tt.

(** [processBlocksAndNoteSpendingInfo] (lines 158-198). *)
Definition processBlocksAndNoteSpendingInfo (blocksAndNoteSpendingInfo : list ProcessedData)
    : Eng unit :=
  b <- forOf collectBlock blocksAndNoteSpendingInfo (mkBatch [] [] []) ;;
  (if (length (noteSpendingInfoDaosBatch b) =? 0)%nat then ret tt
   else (dbCall (AddNoteSpendingInfoBatch (noteSpendingInfoDaosBatch b))
           (addNoteSpendingInfoBatch (noteSpendingInfoDaosBatch b)) ;;
         logEach LogAdded (noteSpendingInfoDaosBatch b))) ;;
  (if (length (txDaos b) =? 0)%nat then ret tt
   else dbCall (AddTxs (txDaos b)) (addTxs (txDaos b))) ;;
  removedNoteSpendingInfo <-
    dbCall (RemoveNullifiedNoteSpendingInfo (batch_newNullifiers b) publicKey)
      (removeNullifiedNoteSpendingInfo (batch_newNullifiers b) publicKey) ;;
  logEach LogRemoved removedNoteSpendingInfo.

(** The body of the loop over the blocks of [process] (lines 85-126): block
    [blockIndex] of [l2BlockContexts] with the logs at the same position. *)
Definition processBlockAt (l2BlockContexts : list L2BlockContext)
    (blockIndex : nat) (encrypted : L2BlockL2Logs) (acc : list ProcessedData)
    : Eng (list ProcessedData) :=
  ctx <- defined (l2BlockContexts !! blockIndex) ;;
  pd <- processBlock ctx encrypted ;;
  ret (acc ++ [pd]).

(** [process] (lines 72-132). *)
Definition process (l2BlockContexts : list L2BlockContext)
    (encryptedL2BlockLogs : list L2BlockL2Logs) : Eng unit :=
  if negb (length l2BlockContexts =? length encryptedL2BlockLogs)%nat then
    throw (ErrLengthMismatch (length l2BlockContexts) (length encryptedL2BlockLogs))
  else if (length l2BlockContexts =? 0)%nat then ret tt
  else
    blocksAndNoteSpendingInfo <-
      forIndex (processBlockAt l2BlockContexts) 0 encryptedL2BlockLogs [] ;;
    processBlocksAndNoteSpendingInfo blocksAndNoteSpendingInfo ;;
    lastCtx <- defined (l2BlockContexts !! (length l2BlockContexts - 1)%nat) ;;
    setSyncedToBlock (number (block lastCtx)) ;;
    synced <- getSyncedToBlock ;;
    log (LogSynched synced).

End NoteProcessor.

(** ** Two stores *)

(** Modelled from the spec: the persistence store is not among the sources.
    It keeps note records and transaction records.  Inserting a record that
    is already present does not duplicate it.  [removeNullified] removes
    every note record of the given owner whose nullifier is in the given
    list, and returns exactly the records it removed. *)
Record MemoryDB : Type := mkMemoryDB {
  noteSpendingInfoTable : list NoteSpendingInfoDao;
  txTable : list TxDao
}.

Definition insertNew {A} `{EqDecision A} (new old : list A) : list A :=
  fold_left (fun acc x => if decide (x ∈ acc) then acc else acc ++ [x]) new old.

Definition isNullified (nullifiers : list Fr) (account : PublicKey)
    (d : NoteSpendingInfoDao) : bool :=
  bool_decide (dao_publicKey d = account) && bool_decide (nullifier d ∈ nullifiers).

#[global] Instance MemoryDB_Database : Database MemoryDB := {|
  addNoteSpendingInfoBatch daos m :=
    Returns (tt, mkMemoryDB (insertNew daos (noteSpendingInfoTable m)) (txTable m));
  addTxs txs m :=
    Returns (tt, mkMemoryDB (noteSpendingInfoTable m) (insertNew txs (txTable m)));
  removeNullifiedNoteSpendingInfo nullifiers account m :=
    Returns (List.filter (isNullified nullifiers account) (noteSpendingInfoTable m),
             mkMemoryDB
               (List.filter (fun d => negb (isNullified nullifiers account d))
                  (noteSpendingInfoTable m))
               (txTable m))
|}.

(** Modelled from the spec: a store that may be unavailable or reject a
    write.  It serves [writesLeft] operations and rejects every later one,
    leaving its content as it was. *)
Record FlakyDB : Type := mkFlakyDB {
  flaky_content : MemoryDB;
  writesLeft : nat
}.

Definition ErrStoreUnavailable : Error := ErrCollaborator 503.

Definition flaky {A} (op : MemoryDB -> Outcome (A * MemoryDB)) (f : FlakyDB)
    : Outcome (A * FlakyDB) :=
  match writesLeft f with
  | O => Throws ErrStoreUnavailable
  | S n => match op (flaky_content f) with
           | Returns (a, m) => Returns (a, mkFlakyDB m n)
           | Throws e => Throws e
           end
  end.

#[global] Instance FlakyDB_Database : Database FlakyDB := {|
  addNoteSpendingInfoBatch daos := flaky (addNoteSpendingInfoBatch daos);
  addTxs txs := flaky (addTxs txs);
  removeNullifiedNoteSpendingInfo nullifiers account :=
    flaky (removeNullifiedNoteSpendingInfo nullifiers account)
|}.

(** Modelled from the spec: what the engine may assume of a store.  The
    note records a store holds can be listed, and a successful
    [removeNullified] removes exactly the records of the given owner whose
    nullifier is in the given list, and returns the records it removed. *)
Class LawfulStore (DB : Type) `{!Database DB} : Type := {
  storedNotes : DB -> list NoteSpendingInfoDao;
  removeNullified_spec : forall nullifiers account d removed d',
    removeNullifiedNoteSpendingInfo nullifiers account d = Returns (removed, d') ->
    storedNotes d' =
      List.filter (fun x => negb (isNullified nullifiers account x)) (storedNotes d) /\
    removed = List.filter (isNullified nullifiers account) (storedNotes d)
}.

#[global] Program Instance MemoryDB_Lawful : LawfulStore MemoryDB := {|
  storedNotes := noteSpendingInfoTable
|}.
Next Obligation.
  intros ns pk d removed d' [= <- <-]. split; reflexivity.
Defined.

#[global] Program Instance FlakyDB_Lawful : LawfulStore FlakyDB := {|
  storedNotes f := noteSpendingInfoTable (flaky_content f)
|}.
Next Obligation.
  intros ns pk [m n] removed d'. simpl. unfold flaky. simpl.
  destruct n; [discriminate|]. intros [= <- <-]. split; reflexivity.
Defined.

(** ** Vocabulary of the properties *)

(** The raw buffers of a block in the order the three nested loops visit
    them, each with the index of its transaction. *)
Fixpoint flatLogsFrom (i : nat) (txls : list TxL2Logs) : list (nat * Buffer) :=
  match txls with
  | [] => []
  | txl :: rest =>
      map (pair i) (concat (map logs (functionLogs txl))) ++ flatLogsFrom (S i) rest
  end.

Definition flatLogs (lg : L2BlockL2Logs) : list (nat * Buffer) :=
  flatLogsFrom 0 (txLogs lg).

(** The value of the running counter [logIndexWithinBlock] after [p]
    increments. *)
Definition logIndexAt (p : nat) : Z := Nat.iter p (fun c => jsAdd c 1) 0%Z.
Arguments logIndexAt : simpl never.

(** The leaf indices of a block stay in the range in which additions are
    exact: the first leaf index is not negative, and the first leaf index
    plus the number of raw buffers of the block is at most 2^53. *)
Definition safeLeafRange (x : L2BlockContext * L2BlockL2Logs) : Prop :=
  (0 <= nextAvailableLeafIndex (block (fst x)))%Z /\
  (nextAvailableLeafIndex (block (fst x)) + Z.of_nat (length (flatLogs (snd x)))
   <= maxExact)%Z.

(** A matched log: its position among all the raw buffers of the block, the
    index of its transaction and its payload. *)
Record Match : Type := mkMatch {
  m_position : nat;
  m_txIndex : nat;
  m_info : NoteSpendingInfo
}.

(** The pertaining indices after the matches [ms] were seen, starting from
    the set [s]. *)
Definition pertainingAfter (s : list nat) (ms : list Match) : list nat :=
  foldl (fun acc m => setAdd (m_txIndex m) acc) s ms.

(** The calls to the persistence store, and the events of such calls. *)
Definition isPersistenceCall (c : Call) : bool :=
  match c with
  | AddNoteSpendingInfoBatch _ | AddTxs _ | RemoveNullifiedNoteSpendingInfo _ _ => true
  | _ => false
  end.

Definition isPersistence (ev : Event) : bool :=
  match ev with Returned c | Threw c _ => isPersistenceCall c end.

Definition notPersistence (ev : Event) : Prop := isPersistence ev = false.

Definition anyEvent (ev : Event) : Prop := True.

(** The newly revealed nullifiers of all the blocks of a batch, in block
    order. *)
Definition batchNullifiers (blocks : list L2BlockContext) : list Fr :=
  concat (map (fun ctx => newNullifiers (block ctx)) blocks).

(** The first declared contract-deployment entry of transaction [t] of a
    block is not the zero address. *)
Definition firstDeploymentNonZero (ctx : L2BlockContext) (t : nat) : Prop :=
  exists l2tx first,
    block_txs (block ctx) !! t = Some l2tx /\
    newContractData l2tx !! 0%nat = Some first /\
    isZero (cd_contractAddress first) = false.

(** The events of the persistence stage for the accumulated records. *)
Definition addedEvents (daos : list NoteSpendingInfoDao) : list Event :=
  match daos with
  | [] => []
  | _ => Returned (AddNoteSpendingInfoBatch daos)
           :: map (fun d => Returned (Log (LogAdded (nullifier d)))) daos
  end.

Definition txEvents (txs : list TxDao) : list Event :=
  match txs with [] => [] | _ => [Returned (AddTxs txs)] end.

Section Vocabulary.

Context {DB : Type} `{!Database DB}.
Variable publicKey : PublicKey.
Variable address : AztecAddress.
Variable getAccountPrivateKey : PublicKey -> Outcome PrivateKey.
Variable fromEncryptedBuffer :
  Buffer -> PrivateKey -> Grumpkin -> Outcome (option NoteSpendingInfo).
Variable computeNullifier : AztecAddress -> Fr -> list Fr -> Outcome Fr.
Variable siloNullifier : AztecAddress -> Fr -> Outcome Fr.

(** The events a run added to the history. *)
Definition newEvents (w w' : World DB) : list Event :=
  drop (length (history w)) (history w').

(** [respects P m]: [m] leaves [syncedToBlock] alone, only appends events
    satisfying [P] to the history, and whenever one of the calls it made
    threw, [m] throws that very error. *)
Definition respects (P : Event -> Prop) {A} (m : M DB A) : Prop :=
  forall w,
    syncedToBlock (world_of (m w)) = syncedToBlock w /\
    exists evs,
      history (world_of (m w)) = history w ++ evs /\
      Forall P evs /\
      forall c e, Threw c e ∈ evs -> m w = Throw e (world_of (m w)).

(** What a buffer decrypts to under a private key, if it does. *)
Definition decrypted (sk : PrivateKey) (buf : Buffer) : option NoteSpendingInfo :=
  match fromEncryptedBuffer buf sk GrumpkinCurve with
  | Returns o => o
  | Throws _ => None
  end.

Definition decrypts (sk : PrivateKey) (x : nat * Buffer) : bool :=
  match decrypted sk (snd x) with Some _ => true | None => false end.

(** The matched logs of a flattened list whose first entry has position
    [pos], in order. *)
Fixpoint matchesFrom (sk : PrivateKey) (pos : nat) (l : list (nat * Buffer)) : list Match :=
  match l with
  | [] => []
  | x :: rest =>
      match decrypted sk (snd x) with
      | Some info => mkMatch pos (fst x) info :: matchesFrom sk (S pos) rest
      | None => matchesFrom sk (S pos) rest
      end
  end.

(** The positions, among all the raw buffers of a block, of those that
    decrypt. *)
Definition matchedPositions (sk : PrivateKey) (flat : list (nat * Buffer)) : list nat :=
  List.filter
    (fun i => match flat !! i with Some x => decrypts sk x | None => false end)
    (seq 0 (length flat)).

(** The note record of a matched log of a block whose first leaf is [start]:
    its leaf index is the sum, as numbers, of [start] and the counter at the
    position of the log. *)
Definition noteOf (start : Z) (m : Match) (d : NoteSpendingInfoDao) : Prop :=
  dao_info d = m_info m /\
  index d = jsAdd start (logIndexAt (m_position m)) /\
  dao_publicKey d = publicKey /\
  exists inner,
    computeNullifier (contractAddress (m_info m)) (storageSlot (m_info m))
      (notePreimage (m_info m)) = Returns inner /\
    siloNullifier (contractAddress (m_info m)) inner = Returns (nullifier d).

(** The body of the innermost loop on one entry of the flattened logs. *)
Definition stepFlat (start : Z) (sk : PrivateKey) (st : BlockScan) (x : nat * Buffer)
    : M DB BlockScan :=
  processLog (DB := DB) publicKey fromEncryptedBuffer computeNullifier siloNullifier
    start sk GrumpkinCurve (fst x) st (snd x).

(** What a finished scan of one block holds. *)
Definition matches (sk : PrivateKey) (lg : L2BlockL2Logs) : list Match :=
  matchesFrom sk 0 (flatLogs lg).

Definition blockDone (sk : PrivateKey) (ctx : L2BlockContext) (lg : L2BlockL2Logs)
    (pd : ProcessedData) : Prop :=
  blockContext pd = ctx /\
  userPertainingTxIndices pd = pertainingAfter [] (matches sk lg) /\
  Forall2 (noteOf (nextAvailableLeafIndex (block ctx))) (matches sk lg)
    (noteSpendingInfoDaos pd).

(** The same, for a block context paired with its logs, under the key the
    key store returns. *)
Definition blockScanned (x : L2BlockContext * L2BlockL2Logs) (pd : ProcessedData) : Prop :=
  exists sk, getAccountPrivateKey publicKey = Returns sk /\ blockDone sk (fst x) (snd x) pd.

(** The transaction record of the pertaining transaction [t] of a block. *)
Definition txOf (ctx : L2BlockContext) (t : nat) (tx : TxDao) : Prop :=
  getTxHash ctx t = Some (txHash tx) /\
  tx_blockHash tx = getBlockHash ctx /\
  blockNumber tx = number (block ctx) /\
  origin tx = address /\
  exists l2tx first,
    block_txs (block ctx) !! t = Some l2tx /\
    newContractData l2tx !! 0%nat = Some first /\
    (is_Some (tx_contractAddress tx) <-> isZero (cd_contractAddress first) = false).

Definition txsOf (pd : ProcessedData) (txs : list TxDao) : Prop :=
  Forall2 (txOf (blockContext pd)) (userPertainingTxIndices pd) txs.

Definition removedEvents (nullifiers : list Fr) (removed : list NoteSpendingInfoDao)
    : list Event :=
  Returned (RemoveNullifiedNoteSpendingInfo nullifiers publicKey)
    :: map (fun d => Returned (Log (LogRemoved (nullifier d)))) removed.

(** The persistence calls of a batch, in the order they are issued. *)
Definition persistenceCalls (daos : list NoteSpendingInfoDao) (txs : list TxDao)
    (nullifiers : list Fr) : list Event :=
  match daos with [] => [] | _ => [Returned (AddNoteSpendingInfoBatch daos)] end
  ++ match txs with [] => [] | _ => [Returned (AddTxs txs)] end
  ++ [Returned (RemoveNullifiedNoteSpendingInfo nullifiers publicKey)].

(** The engine owns a note of transaction [t] of a block: one of the raw
    buffers of that transaction decrypts under its private key. *)
Definition ownsNoteOf (sk : PrivateKey) (lg : L2BlockL2Logs) (t : nat) : Prop :=
  exists txl fl buf,
    txLogs lg !! t = Some txl /\ fl ∈ functionLogs txl /\ buf ∈ logs fl /\
    is_Some (decrypted sk buf).

(** The pertaining transaction indices of a block, in the order the scan
    meets them. *)
Definition pertainingTxs (sk : PrivateKey) (lg : L2BlockL2Logs) : list nat :=
  pertainingAfter [] (matches sk lg).

End Vocabulary.

(** ** A concrete scenario

    One key; a buffer decrypts under it when its first byte is [x01], and
    then its second byte is the single field of the note preimage.  The raw
    nullifier of a note is its preimage field plus 1000, siloing adds the
    contract address. *)
Module Scenario.

Local Open Scope Z_scope.

Definition pk : PublicKey := mkPublicKey 11 22.
Definition sk : PrivateKey := [x2a].
Definition owner : AztecAddress := 77.

Definition keyStore (p : PublicKey) : Outcome PrivateKey :=
  if decide (p = pk) then Returns sk else Throws (ErrCollaborator 404).

Definition decrypt (buf : Buffer) (key : PrivateKey) (curve : Grumpkin)
    : Outcome (option NoteSpendingInfo) :=
  match buf with
  | x01 :: v :: _ =>
      if decide (key = sk)
      then Returns (Some (mkNoteSpendingInfo 500 1 [Z.of_N (Byte.to_N v)]))
      else Returns None
  | _ => Returns None
  end.

Definition rawNullifier (c : AztecAddress) (slot : Fr) (items : list Fr) : Outcome Fr :=
  match items with
  | [v] => Returns (v + 1000)%Z
  | _ => Throws (ErrCollaborator 1)
  end.

Definition silo (c : AztecAddress) (inner : Fr) : Outcome Fr := Returns (c + inner)%Z.

Definition world0 {DB} (d : DB) : World DB := mkWorld 0 d (Returns 0) [].

Definition emptyDB : MemoryDB := mkMemoryDB [] [].

(** Three logs in one transaction: the first and the third are ours. *)
Definition P0 : Buffer := [x01; x05].
Definition other : Buffer := [x02; x06].
Definition P2 : Buffer := [x01; x07].

Definition logs7 : L2BlockL2Logs :=
  mkL2BlockL2Logs [mkTxL2Logs [mkFunctionL2Logs [P0; other]; mkFunctionL2Logs [P2]]].

Definition block7 : L2BlockContext :=
  mkL2BlockContext (mkL2Block 7 100 [mkL2Tx [mkContractData 0]] []) [x07] [[xa0]].

(** Block 8 has no logs of ours and reveals the nullifier of [P0]. *)
Definition logs8 : L2BlockL2Logs := mkL2BlockL2Logs [mkTxL2Logs [mkFunctionL2Logs [other]]].

Definition block8 : L2BlockContext :=
  mkL2BlockContext (mkL2Block 8 103 [mkL2Tx [mkContractData 0]] [1505%Z]) [x08] [[xa1]].

(** Blocks without transactions, for the watermark. *)
Definition bare (n : Z) : L2BlockContext := mkL2BlockContext (mkL2Block n 0 [] []) [] [].
Definition noLogs : L2BlockL2Logs := mkL2BlockL2Logs [].

Definition run {DB} `{!Database DB} :=
  process (DB := DB) pk owner keyStore decrypt rawNullifier silo.

Definition scan {DB} :=
  processBlock (DB := DB) pk keyStore decrypt rawNullifier silo.

Definition note (v nf idx : Z) : NoteSpendingInfoDao :=
  mkNoteSpendingInfoDao (mkNoteSpendingInfo 500 1 [v]) nf idx pk.

Definition start : World MemoryDB := world0 emptyDB.

(** The worlds after block 7, after blocks 7 and 8 in one batch, after a
    bare block 5, and after a bare block 3 that follows it. *)
Definition after7 : World MemoryDB := world_of (run [block7] [logs7] start).
Definition after78 : World MemoryDB :=
  world_of (run [block7; block8] [logs7; logs8] start).
Definition after5 : World MemoryDB := world_of (run [bare 5] [noLogs] start).
Definition after53 : World MemoryDB := world_of (run [bare 3] [noLogs] after5).

(** The scan of block 7 alone. *)
Definition scanned7 : ProcessedData :=
  mkProcessedData block7 [0%nat] [note 5 1505 100; note 7 1507 102].
Definition afterScan7 : World MemoryDB := world_of (scan block7 logs7 start).

(** A store that serves one write, and a world whose watermark is ahead of
    the node after a rollback. *)
Definition flakyStart : World FlakyDB := world0 (mkFlakyDB emptyDB 1).
Definition rolledBack : World MemoryDB := mkWorld 8 emptyDB (Returns 7) [].

End Scenario.

(** A block whose first leaf index is 2^53, with two logs of ours next to
    each other. *)
Module LimitScenario.

Import Scenario.
Local Open Scope Z_scope.

Definition logsAtLimit : L2BlockL2Logs :=
  mkL2BlockL2Logs [mkTxL2Logs [mkFunctionL2Logs [P0; P2]]].

Definition blockAtLimit : L2BlockContext :=
  mkL2BlockContext (mkL2Block 7 maxExact [mkL2Tx [mkContractData 0]] []) [x07] [[xa0]].

Definition notesAtLimit : list NoteSpendingInfoDao :=
  [note 5 1505 maxExact; note 7 1507 maxExact].

Definition afterLimit : World MemoryDB :=
  world_of (run [blockAtLimit] [logsAtLimit] start).

End LimitScenario.

(** ** The mock block source

    [MockBlockSource] of [yarn-project/p2p/src/client/mocks.ts].  The blocks
    come from [mockRandomL2Block] of [@aztec/archiver], which is not among
    the sources; it is a parameter.  Its methods return resolved promises,
    so they are plain functions here. *)

(** [Array.prototype.slice(start, end)] on integer arguments: a negative
    index counts from the end, and both indices are clamped to the array. *)
Definition sliceIndex (len : nat) (i : Z) : nat :=
  if (i <? 0)%Z then Z.to_nat (Z.max (Z.of_nat len + i) 0)
  else Z.to_nat (Z.min i (Z.of_nat len)).

Definition slice {A} (l : list A) (start stop : Z) : list A :=
  let k := sliceIndex (length l) start in
  let final := sliceIndex (length l) stop in
  take (final - k) (drop k l).

Section MockBlockSource.

Variable Block : Type.
Variable mockRandomL2Block : Z -> Block.

Record MockBlockSource : Type := mkMockBlockSource {
  numBlocks : Z;
  l2Blocks : list Block
}.

(** The loop of the constructor (lines 14-16): [remaining] iterations are
    left, [i] is the loop counter. *)
Fixpoint fillBlocks (remaining : nat) (i : Z) (acc : list Block) : list Block :=
  match remaining with
  | O => acc
  | S r => fillBlocks r (i + 1) (acc ++ [mockRandomL2Block i])
  end.

(** The constructor (lines 12-17); [numBlocks] defaults to 100.  The loop
    runs while [i < numBlocks], that is [numBlocks] times, and not at all
    for a [numBlocks] that is not positive. *)
Definition newMockBlockSource (numBlocksArg : option Z) : MockBlockSource :=
  let n := default 100%Z numBlocksArg in
  mkMockBlockSource n (fillBlocks (Z.to_nat n) 0 []).

(** [getLatestBlockNum] (lines 19-21). *)
Definition getLatestBlockNum (s : MockBlockSource) : Z :=
  (Z.of_nat (length (l2Blocks s)) - 1)%Z.

(** [getL2Blocks] (lines 23-25).  The end of the slice is written as the
    exact sum: the slice is the same for the rounded sum, as shown with the
    properties of the source. *)
Definition getL2Blocks (s : MockBlockSource) (from take : Z) : list Block :=
  slice (l2Blocks s) from (from + take).

End MockBlockSource.

(** ** More vocabulary: the store, the node and the calls of a run *)

(** [tracks m]: [m] does not change the height the node reports, and
    changes the database only through a persistence call. *)
Definition tracks {DB A} (m : M DB A) : Prop :=
  forall w,
    remoteBlockHeight (world_of (m w)) = remoteBlockHeight w /\
    exists evs,
      history (world_of (m w)) = history w ++ evs /\
      (List.filter isPersistence evs = [] -> db (world_of (m w)) = db w).

(** A call that returned. *)
Definition returnedEvent (ev : Event) : Prop :=
  match ev with Returned _ => True | Threw _ _ => False end.

(** [haltsOnFailure m]: every call that [m] made returned, except possibly
    the last one, and when the last one threw, [m] throws its error. *)
Definition haltsOnFailure {DB A} (m : M DB A) : Prop :=
  forall w, exists evs,
    history (world_of (m w)) = history w ++ evs /\
    match m w with
    | Ok _ _ => Forall returnedEvent evs
    | Throw e _ =>
        Forall returnedEvent evs \/
        exists evs0 c, evs = evs0 ++ [Threw c e] /\ Forall returnedEvent evs0
    end.

(** An event that is not a failed call, unless the call is to the store. *)
Definition failsInStore (ev : Event) : Prop :=
  match ev with
  | Returned _ => True
  | Threw c _ => isPersistenceCall c = true
  end.

(** The buffers that the decryption was tried on, in order. *)
Definition decryptAttempts (evs : list Event) : list Buffer :=
  omap (fun ev => match ev with
                  | Returned (FromEncryptedBuffer b) | Threw (FromEncryptedBuffer b) _ => Some b
                  | _ => None
                  end) evs.

Definition isKeyFetch (ev : Event) : bool :=
  match ev with
  | Returned (GetAccountPrivateKey _) | Threw (GetAccountPrivateKey _) _ => true
  | _ => false
  end.

Definition isNullifierDerivation (ev : Event) : bool :=
  match ev with
  | Returned (ComputeNullifier _ _ _) | Threw (ComputeNullifier _ _ _) _ => true
  | _ => false
  end.

(** An event of the stages that follow the scan: a log line or a call to
    the store. *)
Definition afterScan (ev : Event) : Prop :=
  match ev with
  | Returned c | Threw c _ =>
      match c with
      | Log _ | AddNoteSpendingInfoBatch _ | AddTxs _
      | RemoveNullifiedNoteSpendingInfo _ _ => True
      | _ => False
      end
  end.

Section MoreVocabulary.

Context {DB : Type} `{!Database DB}.
Variable publicKey : PublicKey.
Variable address : AztecAddress.
Variable fromEncryptedBuffer :
  Buffer -> PrivateKey -> Grumpkin -> Outcome (option NoteSpendingInfo).

(** What [processBlocksAndNoteSpendingInfo] does with the accumulated
    batch, after its loop (lines 187-197). *)
Definition persistBatch (b : Batch) : M DB unit :=
  (if (length (noteSpendingInfoDaosBatch b) =? 0)%nat then ret tt
   else (dbCall (AddNoteSpendingInfoBatch (noteSpendingInfoDaosBatch b))
           (addNoteSpendingInfoBatch (noteSpendingInfoDaosBatch b)) ;;
         logEach LogAdded (noteSpendingInfoDaosBatch b))) ;;
  (if (length (txDaos b) =? 0)%nat then ret tt
   else dbCall (AddTxs (txDaos b)) (addTxs (txDaos b))) ;;
  removedNoteSpendingInfo <-
    dbCall (RemoveNullifiedNoteSpendingInfo (batch_newNullifiers b) publicKey)
      (removeNullifiedNoteSpendingInfo (batch_newNullifiers b) publicKey) ;;
  logEach LogRemoved removedNoteSpendingInfo.

(** The deployed-contract address of the [j]-th transaction record of a
    block is read from the [j]-th note record of the block. *)
Definition deployedFromNote (pd : ProcessedData) (txs : list TxDao) : Prop :=
  length txs = length (userPertainingTxIndices pd) /\
  forall j tx a,
    txs !! j = Some tx -> tx_contractAddress tx = Some a ->
    exists d, noteSpendingInfoDaos pd !! j = Some d /\ a = contractAddress (dao_info d).

(** A block context holds, for every transaction of its logs of which the
    engine owns a note, a transaction hash and a transaction with a first
    contract-deployment entry. *)
Definition blockWellFormed (sk : PrivateKey) (x : L2BlockContext * L2BlockL2Logs) : Prop :=
  forall t, ownsNoteOf fromEncryptedBuffer sk (snd x) t ->
    is_Some (getTxHash (fst x) t) /\
    exists l2tx, block_txs (block (fst x)) !! t = Some l2tx /\
                 is_Some (newContractData l2tx !! 0%nat).

(** The store answers every request. *)
Definition storeNeverThrows : Prop :=
  (forall daos (d : DB), exists d', addNoteSpendingInfoBatch daos d = Returns (tt, d')) /\
  (forall txs (d : DB), exists d', addTxs txs d = Returns (tt, d')) /\
  (forall nullifiers account (d : DB), exists removed d',
     removeNullifiedNoteSpendingInfo nullifiers account d = Returns (removed, d')).

End MoreVocabulary.

(** ** More of the scenario

    A key store without the key, a siloing that throws, a nullifier
    derivation that always returns, and a decryption that reads the contract
    address of the note from the second byte of the buffer and the preimage
    field from the third. *)
Module MoreScenario.

Local Open Scope Z_scope.

Definition noKeyStore (p : PublicKey) : Outcome PrivateKey :=
  Throws (ErrCollaborator 404).

Definition brokenSilo (c : AztecAddress) (inner : Fr) : Outcome Fr :=
  Throws (ErrCollaborator 2).

Definition totalNullifier (c : AztecAddress) (slot : Fr) (items : list Fr) : Outcome Fr :=
  Returns (hd 0 items + 1000).

Definition decryptAt (buf : Buffer) (key : PrivateKey) (curve : Grumpkin)
    : Outcome (option NoteSpendingInfo) :=
  match buf with
  | x01 :: c :: v :: _ =>
      if decide (key = Scenario.sk)
      then Returns (Some (mkNoteSpendingInfo (Z.of_N (Byte.to_N c)) 1
                            [Z.of_N (Byte.to_N v)]))
      else Returns None
  | _ => Returns None
  end.

(** Block 9: transaction 0 holds two notes of ours, of the contracts 41 and
    42, and deploys nothing; transaction 1 holds one note of ours, of the
    contract 43, and deploys a contract. *)
Definition logs9 : L2BlockL2Logs :=
  mkL2BlockL2Logs
    [mkTxL2Logs [mkFunctionL2Logs [[x01; x29; x05]; [x01; x2a; x06]]];
     mkTxL2Logs [mkFunctionL2Logs [[x01; x2b; x07]]]].

Definition block9 : L2BlockContext :=
  mkL2BlockContext
    (mkL2Block 9 200 [mkL2Tx [mkContractData 0]; mkL2Tx [mkContractData 99]] [])
    [x09] [[xb0]; [xb1]].

Definition note9 (c v nf idx : Z) : NoteSpendingInfoDao :=
  mkNoteSpendingInfoDao (mkNoteSpendingInfo c 1 [v]) nf idx Scenario.pk.

Definition scanned9 : ProcessedData :=
  mkProcessedData block9 [0%nat; 1%nat]
    [note9 41 5 1046 200; note9 42 6 1048 201; note9 43 7 1050 202].

Definition run9 :=
  process (DB := MemoryDB) Scenario.pk Scenario.owner Scenario.keyStore decryptAt
    Scenario.rawNullifier Scenario.silo.

Definition scan9 :=
  processBlock (DB := MemoryDB) Scenario.pk Scenario.keyStore decryptAt
    Scenario.rawNullifier Scenario.silo.

Definition afterScan9 : World MemoryDB := world_of (scan9 block9 logs9 Scenario.start).
Definition after9 : World MemoryDB := world_of (run9 [block9] [logs9] Scenario.start).

(** Runs of block 7: without the key, with the siloing that throws, and with
    the nullifier derivation that always returns. *)
Definition runNoKey :=
  process (DB := MemoryDB) Scenario.pk Scenario.owner noKeyStore Scenario.decrypt
    Scenario.rawNullifier Scenario.silo.

Definition runBrokenSilo :=
  process (DB := MemoryDB) Scenario.pk Scenario.owner Scenario.keyStore Scenario.decrypt
    Scenario.rawNullifier brokenSilo.

Definition runTotal :=
  process (DB := MemoryDB) Scenario.pk Scenario.owner Scenario.keyStore Scenario.decrypt
    totalNullifier Scenario.silo.

(** A world in which the node is at height 7, and the world after block 7
    was processed in it. *)
Definition start7 : World MemoryDB := mkWorld 0 Scenario.emptyDB (Returns 7) [].
Definition after7 : World MemoryDB :=
  world_of (Scenario.run [Scenario.block7] [Scenario.logs7] start7).

(** A mock source of five blocks; the block drawn for [i] is [i] itself. *)
Definition source5 : MockBlockSource Z := newMockBlockSource Z (fun i => i) (Some 5).

End MoreScenario.

(** * Reasoning about engine computations *)

Section Reasoning.

Context {DB : Type}.

Lemma bind_Ok {A B} (m : M DB A) (k : A -> M DB B) (w : World DB) b w' :
  bind m k w = Ok b w' <-> exists a w1, m w = Ok a w1 /\ k a w1 = Ok b w'.
Proof.
  unfold bind. destruct (m w) as [a w1|e w1]; split.
  - intros Hk. exists a, w1. auto.
  - intros (a' & w1' & Heq & Hk). inversion Heq; subst. exact Hk.
  - discriminate.
  - intros (a' & w1' & Heq & _). discriminate.
Qed.

Lemma bind_Throw {A B} (m : M DB A) (k : A -> M DB B) (w : World DB) e w' :
  bind m k w = Throw e w' <->
  m w = Throw e w' \/ exists a w1, m w = Ok a w1 /\ k a w1 = Throw e w'.
Proof.
  unfold bind. destruct (m w) as [a w1|e1 w1]; split.
  - intros Hk. right. exists a, w1. auto.
  - intros [Heq|(a' & w1' & Heq & Hk)]; [discriminate|].
    inversion Heq; subst. exact Hk.
  - intros Heq. left. injection Heq as -> ->. reflexivity.
  - intros [Heq|(a' & w1' & Heq & _)]; [|discriminate].
    injection Heq as -> ->. reflexivity.
Qed.

Lemma newEvents_app (w w' : World DB) evs :
  history w' = history w ++ evs -> newEvents w w' = evs.
Proof. intros Hh. unfold newEvents. rewrite Hh. apply drop_app_length. Qed.

Lemma respects_ret P {A} (a : A) : respects P (ret a : M DB A).
Proof.
  intros w. split; [reflexivity|]. exists []. simpl.
  rewrite app_nil_r. split; [reflexivity|]. split; [constructor|].
  intros c e Hin. inversion Hin.
Qed.

Lemma respects_throw P {A} (e : Error) : respects P (throw e : M DB A).
Proof.
  intros w. split; [reflexivity|]. exists []. simpl.
  rewrite app_nil_r. split; [reflexivity|]. split; [constructor|].
  intros c e' Hin. inversion Hin.
Qed.

Lemma respects_bind P {A B} (m : M DB A) (k : A -> M DB B) :
  respects P m -> (forall a, respects P (k a)) -> respects P (bind m k).
Proof.
  intros Hm Hk w. unfold bind.
  destruct (Hm w) as (Hs & evs1 & Hh & HP & Hbad).
  destruct (m w) as [a w1|e w1] eqn:Hmw; simpl in *.
  - destruct (Hk a w1) as (Hs2 & evs2 & Hh2 & HP2 & Hprop).
    split; [congruence|]. exists (evs1 ++ evs2).
    split; [rewrite Hh2, Hh, app_assoc; reflexivity|].
    split; [apply Forall_app; auto|].
    intros c e Hin. apply elem_of_app in Hin as [Hin|Hin]; [|eauto].
    specialize (Hbad _ _ Hin). discriminate.
  - split; [exact Hs|]. exists evs1. repeat split; auto.
    intros c e' Hin. specialize (Hbad _ _ Hin).
    injection Hbad as ->. reflexivity.
Qed.

Lemma respects_call (P : Event -> Prop) {A} (c : Call) (answer : Outcome A) :
  P (Returned c) -> (forall e, P (Threw c e)) -> respects P (call c answer : M DB A).
Proof.
  intros Hr Ht w. unfold call. destruct answer as [a|e]; simpl.
  - split; [reflexivity|]. exists [Returned c]. repeat split; auto.
    intros c' e' Hin. apply list_elem_of_singleton in Hin. discriminate.
  - split; [reflexivity|]. exists [Threw c e]. repeat split; auto.
    intros c' e' Hin. apply list_elem_of_singleton in Hin.
    injection Hin as -> ->. reflexivity.
Qed.

Lemma respects_dbCall (P : Event -> Prop) {A} (c : Call) (op : DB -> Outcome (A * DB)) :
  P (Returned c) -> (forall e, P (Threw c e)) -> respects P (dbCall c op).
Proof.
  intros Hr Ht w. unfold dbCall. destruct (op (db w)) as [[a d]|e]; simpl.
  - split; [reflexivity|]. exists [Returned c]. repeat split; auto.
    intros c' e' Hin. apply list_elem_of_singleton in Hin. discriminate.
  - split; [reflexivity|]. exists [Threw c e]. repeat split; auto.
    intros c' e' Hin. apply list_elem_of_singleton in Hin.
    injection Hin as -> ->. reflexivity.
Qed.

Lemma respects_defined P {A} (o : option A) : respects P (defined o : M DB A).
Proof. destruct o; [apply respects_ret|apply respects_throw]. Qed.

Lemma respects_lift P {A} (o : Outcome A) : respects P (lift o : M DB A).
Proof. destruct o; [apply respects_ret|apply respects_throw]. Qed.

Lemma respects_getSyncedToBlock P : respects P (getSyncedToBlock : M DB Z).
Proof.
  intros w. split; [reflexivity|]. exists []. simpl.
  rewrite app_nil_r. split; [reflexivity|]. split; [constructor|].
  intros c e Hin. inversion Hin.
Qed.

Lemma respects_forOf P {A B} (body : B -> A -> M DB B) (l : list A) :
  (forall acc x, respects P (body acc x)) -> forall acc, respects P (forOf body l acc).
Proof.
  intros Hbody. induction l as [|x l IH]; intros acc; simpl.
  - apply respects_ret.
  - apply respects_bind; auto.
Qed.

Lemma respects_forIndex P {A B} (body : nat -> A -> B -> M DB B) (l : list A) :
  (forall i x acc, respects P (body i x acc)) ->
  forall i acc, respects P (forIndex body i l acc).
Proof.
  intros Hbody. induction l as [|x l IH]; intros i acc; simpl.
  - apply respects_ret.
  - apply respects_bind; auto.
Qed.

Lemma respects_weaken (P Q : Event -> Prop) {A} (m : M DB A) :
  (forall ev, P ev -> Q ev) -> respects P m -> respects Q m.
Proof.
  intros HPQ Hm w. destruct (Hm w) as (Hs & evs & Hh & HP & Hbad).
  split; [exact Hs|]. exists evs. repeat split; auto.
  eapply Forall_impl; eauto.
Qed.

(** Loops over a list that was put together from two. *)
Lemma forOf_app {A B} (body : B -> A -> M DB B) (l1 l2 : list A) (acc : B) (w : World DB) :
  forOf body (l1 ++ l2) acc w = bind (forOf body l1 acc) (forOf body l2) w.
Proof.
  revert acc w. induction l1 as [|x l1 IH]; intros acc w; simpl.
  - reflexivity.
  - unfold bind. destruct (body acc x w) as [acc' w'|e w']; [|reflexivity].
    rewrite IH. reflexivity.
Qed.

End Reasoning.

(** * Properties of the engine *)

(** ** Lists of logs and sets of indices *)

(** Additions are exact up to 2^53, and the counter stops there. *)
Lemma toDouble_exact (z : Z) : (Z.abs z <= maxExact)%Z -> toDouble z = z.
Proof.
  intros Hz. unfold toDouble.
  destruct (Z.ltb_spec (Z.abs z) maxExact) as [Hlt|Hge]; [reflexivity|].
  assert (Hcases : z = maxExact \/ z = (- maxExact)%Z) by lia.
  destruct Hcases as [-> | ->]; reflexivity.
Qed.

Lemma logIndexAt_min (p : nat) : logIndexAt p = Z.min (Z.of_nat p) maxExact.
Proof.
  unfold logIndexAt. induction p as [|p IH]; [reflexivity|].
  rewrite Nat.iter_succ, IH. unfold jsAdd.
  destruct (Z_lt_le_dec (Z.of_nat p) maxExact) as [Hlt|Hge].
  - rewrite Z.min_l by lia. rewrite toDouble_exact by lia. lia.
  - rewrite Z.min_r by lia. rewrite Z.min_r by lia. reflexivity.
Qed.

(** Beyond 2^53 a sum is rounded to a multiple of 2, beyond 2^54 to a
    multiple of 4; halfway cases go to the even multiple. *)
Example toDouble_rounds :
  toDouble (maxExact + 1) = maxExact /\
  toDouble (maxExact + 2) = (maxExact + 2)%Z /\
  toDouble (maxExact + 3) = (maxExact + 4)%Z /\
  toDouble (2 * maxExact - 1) = (2 * maxExact)%Z /\
  toDouble (2 * maxExact + 2) = (2 * maxExact)%Z /\
  toDouble (2 * maxExact + 3) = (2 * maxExact + 4)%Z /\
  toDouble (2 * maxExact + 6) = (2 * maxExact + 8)%Z /\
  toDouble (- (maxExact + 1)) = (- maxExact)%Z.
Proof. vm_compute. repeat split. Qed.

Lemma leaf_index_exact (start : Z) (i : nat) :
  (0 <= start)%Z -> (start + Z.of_nat i <= maxExact)%Z ->
  jsAdd start (logIndexAt i) = (start + Z.of_nat i)%Z.
Proof.
  intros Hs Hi. rewrite logIndexAt_min, Z.min_l by lia.
  unfold jsAdd. apply toDouble_exact. lia.
Qed.

(** From 2^53 on, rounding keeps the sign and stays beyond 2^53, so an
    index into an array is clamped the same way before and after rounding. *)
Lemma toDouble_beyond (z : Z) :
  (maxExact <= Z.abs z)%Z ->
  (maxExact <= Z.abs (toDouble z))%Z /\ Z.sgn (toDouble z) = Z.sgn z.
Proof.
  intros Hz. unfold toDouble.
  destruct (Z.ltb_spec (Z.abs z) maxExact) as [Hlt|_]; [lia|].
  set (a := Z.abs z) in *. set (e := Z.log2 a).
  assert (He : (53 <= e)%Z).
  { change 53%Z with (Z.log2 maxExact). apply Z.log2_le_mono. exact Hz. }
  assert (Ha : (2 ^ e <= a)%Z) by (apply Z.log2_spec; unfold maxExact in Hz; lia).
  set (ulp := (2 ^ (e - 52))%Z).
  assert (Hulp : (0 < ulp)%Z) by (apply Z.pow_pos_nonneg; lia).
  assert (He2 : (2 ^ e = 4503599627370496 * ulp)%Z).
  { unfold ulp. change 4503599627370496%Z with (2 ^ 52)%Z.
    rewrite <- Z.pow_add_r by lia. f_equal. lia. }
  assert (Hq : (4503599627370496 <= a / ulp)%Z).
  { apply Z.div_le_lower_bound; [exact Hulp|]. rewrite Z.mul_comm. lia. }
  set (q := (a / ulp)%Z) in *.
  set (q' := if (2 * (a mod ulp) <? ulp)%Z then q
             else if (ulp <? 2 * (a mod ulp))%Z then (q + 1)%Z
             else if Z.even q then q else (q + 1)%Z).
  assert (Hq' : (q <= q')%Z).
  { unfold q'. destruct (_ <? _)%Z; [lia|]. destruct (_ <? _)%Z; [lia|].
    destruct (Z.even q); lia. }
  assert (Hm : (maxExact <= q' * ulp)%Z).
  { apply Z.le_trans with (2 ^ e)%Z.
    - change maxExact with (2 ^ 53)%Z. apply Z.pow_le_mono_r; lia.
    - rewrite He2. apply Z.mul_le_mono_nonneg_r; lia. }
  set (m := (q' * ulp)%Z) in *.
  assert (Hz0 : z <> 0%Z) by (unfold a, maxExact in Hz; lia).
  destruct (Z.sgn_spec z) as [[Hp Hs]|[[Hp Hs]|[Hp Hs]]]; rewrite Hs.
  - rewrite Z.mul_1_l, Z.abs_eq, Z.sgn_pos by (unfold maxExact in Hm; lia). auto.
  - congruence.
  - replace (-1 * m)%Z with (- m)%Z by lia.
    rewrite Z.abs_opp, Z.abs_eq, Z.sgn_neg by (unfold maxExact in Hm; lia). auto.
Qed.

Lemma sliceIndex_rounded (len : nat) (z : Z) :
  (Z.of_nat len <= maxExact)%Z -> sliceIndex len (toDouble z) = sliceIndex len z.
Proof.
  intros Hlen.
  destruct (Z_lt_le_dec (Z.abs z) maxExact) as [Hlt|Hge].
  - unfold toDouble. destruct (Z.ltb_spec (Z.abs z) maxExact); [reflexivity|lia].
  - destruct (toDouble_beyond z Hge) as [Hm Hs]. unfold sliceIndex.
    destruct (Z.ltb_spec (toDouble z) 0), (Z.ltb_spec z 0); lia.
Qed.

Lemma elem_of_concat {A} (x : A) (ls : list (list A)) :
  x ∈ concat ls <-> exists l, l ∈ ls /\ x ∈ l.
Proof.
  rewrite list_elem_of_In, in_concat.
  split; intros (l & H1 & H2); exists l.
  - rewrite !list_elem_of_In. auto.
  - rewrite <- !list_elem_of_In. auto.
Qed.

(** The flattened logs hold exactly the buffers of the nested structure. *)
Lemma flatLogsFrom_elem i txls t buf :
  (t, buf) ∈ flatLogsFrom i txls <->
  exists txl fl, (i <= t)%nat /\ txls !! (t - i)%nat = Some txl /\
                 fl ∈ functionLogs txl /\ buf ∈ logs fl.
Proof.
  revert i. induction txls as [|txl txls IH]; intros i; simpl.
  - split; [intros Hin; inversion Hin|]. intros (? & ? & _ & [=] & _).
  - rewrite elem_of_app, IH. split.
    + intros [Hin|(txl' & fl & Hle & Hlk & Hfl & Hbuf)].
      * apply list_elem_of_fmap in Hin as (b & [= -> ->] & Hin).
        apply elem_of_concat in Hin as (bufs & Hin & Hb).
        apply list_elem_of_fmap in Hin as (fl & -> & Hfl).
        exists txl, fl. rewrite Nat.sub_diag. auto.
      * exists txl', fl. split; [lia|].
        replace (t - i)%nat with (S (t - S i)) by lia. auto.
    + intros (txl' & fl & Hle & Hlk & Hfl & Hbuf).
      destruct (decide (t = i)) as [->|Hne].
      * left. rewrite Nat.sub_diag in Hlk. injection Hlk as <-.
        apply list_elem_of_fmap. exists buf. split; [reflexivity|].
        apply elem_of_concat. exists (logs fl). split; [|exact Hbuf].
        apply list_elem_of_fmap. eauto.
      * right. exists txl', fl. split; [lia|].
        replace (t - i)%nat with (S (t - S i)) in Hlk by lia. auto.
Qed.

Lemma flatLogs_elem lg t buf :
  (t, buf) ∈ flatLogs lg <->
  exists txl fl, txLogs lg !! t = Some txl /\ fl ∈ functionLogs txl /\ buf ∈ logs fl.
Proof.
  unfold flatLogs. rewrite flatLogsFrom_elem. rewrite Nat.sub_0_r.
  split; intros (txl & fl & H); exists txl, fl; [tauto|]. split; [lia|tauto].
Qed.

(** Facts about the set of pertaining indices. *)
Lemma setAdd_elem x s t : t ∈ setAdd x s <-> t ∈ s \/ t = x.
Proof.
  unfold setAdd. destruct (decide (x ∈ s)) as [Hin|Hnin].
  - split; [auto|]. intros [H| ->]; assumption.
  - rewrite elem_of_app, list_elem_of_singleton. reflexivity.
Qed.

Lemma setAdd_NoDup x s : NoDup s -> NoDup (setAdd x s).
Proof.
  intros Hnd. unfold setAdd. destruct (decide (x ∈ s)) as [Hin|Hnin]; [exact Hnd|].
  apply NoDup_app. split; [exact Hnd|]. split; [|apply NoDup_singleton].
  intros y Hy Hy'. apply list_elem_of_singleton in Hy'. subst. contradiction.
Qed.

Lemma pertainingAfter_elem ms : forall s t,
  t ∈ pertainingAfter s ms <-> t ∈ s \/ t ∈ map m_txIndex ms.
Proof.
  unfold pertainingAfter. induction ms as [|m ms IH]; intros s t; simpl.
  - split; [auto|]. intros [H|H]; [exact H|inversion H].
  - rewrite IH, setAdd_elem, elem_of_cons. tauto.
Qed.

Lemma pertainingAfter_NoDup ms : forall s, NoDup s -> NoDup (pertainingAfter s ms).
Proof.
  unfold pertainingAfter. induction ms as [|m ms IH]; intros s Hnd; simpl; [exact Hnd|].
  apply IH, setAdd_NoDup, Hnd.
Qed.

(** ** The store and the node *)

Section Tracking.

Context {DB : Type}.

Lemma tracks_ret {A} (a : A) : tracks (ret a : M DB A).
Proof.
  intros w. split; [reflexivity|]. exists []. simpl. rewrite app_nil_r. auto.
Qed.

Lemma tracks_throw {A} (e : Error) : tracks (throw e : M DB A).
Proof.
  intros w. split; [reflexivity|]. exists []. simpl. rewrite app_nil_r. auto.
Qed.

Lemma tracks_bind {A B} (m : M DB A) (k : A -> M DB B) :
  tracks m -> (forall a, tracks (k a)) -> tracks (bind m k).
Proof.
  intros Hm Hk w. unfold bind.
  destruct (Hm w) as (Hn & evs1 & Hh & Hdb).
  destruct (m w) as [a w1|e w1]; simpl in *.
  - destruct (Hk a w1) as (Hn2 & evs2 & Hh2 & Hdb2).
    split; [congruence|]. exists (evs1 ++ evs2).
    split; [rewrite Hh2, Hh, app_assoc; reflexivity|].
    rewrite List.filter_app. intros Hnil. apply app_eq_nil in Hnil as [H1 H2].
    rewrite Hdb2, Hdb; auto.
  - split; [exact Hn|]. exists evs1. auto.
Qed.

Lemma tracks_call {A} (c : Call) (answer : Outcome A) : tracks (call c answer : M DB A).
Proof.
  intros w. unfold call. destruct answer as [a|e]; simpl;
    (split; [reflexivity|]); eexists; (split; [reflexivity|]); auto.
Qed.

Lemma tracks_dbCall {A} (c : Call) (op : DB -> Outcome (A * DB)) :
  isPersistenceCall c = true -> tracks (dbCall c op).
Proof.
  intros Hc w. unfold dbCall. destruct (op (db w)) as [[a d]|e]; simpl;
    (split; [reflexivity|]); eexists; (split; [reflexivity|]); simpl; rewrite Hc.
  - discriminate.
  - auto.
Qed.

Lemma tracks_defined {A} (o : option A) : tracks (defined o : M DB A).
Proof. destruct o; [apply tracks_ret|apply tracks_throw]. Qed.

Lemma tracks_lift {A} (o : Outcome A) : tracks (lift o : M DB A).
Proof. destruct o; [apply tracks_ret|apply tracks_throw]. Qed.

Lemma tracks_getSyncedToBlock : tracks (getSyncedToBlock : M DB Z).
Proof.
  intros w. split; [reflexivity|]. exists []. simpl. rewrite app_nil_r. auto.
Qed.

Lemma tracks_setSyncedToBlock (n : Z) : tracks (setSyncedToBlock n : M DB unit).
Proof.
  intros w. split; [reflexivity|]. exists []. simpl. rewrite app_nil_r. auto.
Qed.

Lemma tracks_forOf {A B} (body : B -> A -> M DB B) (l : list A) :
  (forall acc x, tracks (body acc x)) -> forall acc, tracks (forOf body l acc).
Proof.
  intros Hbody. induction l as [|x l IH]; intros acc; simpl.
  - apply tracks_ret.
  - apply tracks_bind; auto.
Qed.

Lemma tracks_forIndex {A B} (body : nat -> A -> B -> M DB B) (l : list A) :
  (forall i x acc, tracks (body i x acc)) ->
  forall i acc, tracks (forIndex body i l acc).
Proof.
  intros Hbody. induction l as [|x l IH]; intros i acc; simpl.
  - apply tracks_ret.
  - apply tracks_bind; auto.
Qed.

(** The logger returns: a log line is an event that returned. *)
Lemma respects_log (P : Event -> Prop) (line : LogLine) :
  P (Returned (Log line)) -> respects P (log line : M DB unit).
Proof.
  intros HP w. unfold log, call. simpl. split; [reflexivity|].
  exists [Returned (Log line)]. repeat split; auto.
  intros c e Hin. apply list_elem_of_singleton in Hin. discriminate.
Qed.

End Tracking.

Lemma pertainingAfter_length ms : forall s,
  (length (pertainingAfter s ms) <= length s + length ms)%nat.
Proof.
  unfold pertainingAfter. induction ms as [|m ms IH]; intros s; simpl; [lia|].
  etransitivity; [apply IH|]. unfold setAdd.
  destruct (decide (m_txIndex m ∈ s)); [lia|]. rewrite length_app. simpl. lia.
Qed.

(** ** The order of the pertaining indices *)

Lemma StronglySorted_snoc (s : list nat) (t : nat) :
  StronglySorted lt s -> (forall x, x ∈ s -> x < t) -> StronglySorted lt (s ++ [t]).
Proof.
  induction 1 as [|x s Hs IH Hx]; intros Hlt; simpl.
  - repeat constructor.
  - constructor.
    + apply IH. intros y Hy. apply Hlt. right. exact Hy.
    + apply Forall_app. split; [exact Hx|]. constructor; [|constructor].
      apply Hlt. left.
Qed.

Lemma setAdd_sorted (s : list nat) (t : nat) :
  StronglySorted lt s -> (forall x, x ∈ s -> x <= t) -> StronglySorted lt (setAdd t s).
Proof.
  intros Hs Hle. unfold setAdd. destruct (decide (t ∈ s)) as [Hin|Hnin]; [exact Hs|].
  apply StronglySorted_snoc; [exact Hs|]. intros x Hx.
  specialize (Hle x Hx). assert (x <> t) by (intros ->; contradiction). lia.
Qed.

Lemma flatLogsFrom_indices (txls : list TxL2Logs) : forall i,
  StronglySorted le (map fst (flatLogsFrom i txls)) /\
  Forall (le i) (map fst (flatLogsFrom i txls)).
Proof.
  induction txls as [|txl txls IH]; intros i; simpl.
  - split; constructor.
  - destruct (IH (S i)) as [Hs Hall]. rewrite map_app, map_map. simpl.
    generalize (concat (map logs (functionLogs txl))) as bufs.
    induction bufs as [|b bufs [IHs IHall]]; simpl.
    + split; [exact Hs|]. eapply Forall_impl; [exact Hall|]. simpl. intros; lia.
    + split; constructor; auto.
Qed.

(** ** The calls of the scan *)

Lemma afterScan_quiet (evs : list Event) :
  Forall afterScan evs ->
  decryptAttempts evs = [] /\
  List.filter isKeyFetch evs = [] /\
  List.filter isNullifierDerivation evs = [].
Proof.
  induction 1 as [|ev evs Hev _ (IH1 & IH2 & IH3)]; [auto|].
  unfold decryptAttempts in *.
  destruct ev as [c|c e]; destruct c; simpl in Hev; try contradiction;
    simpl; auto.
Qed.

Lemma decryptAttempts_app (evs1 evs2 : list Event) :
  decryptAttempts (evs1 ++ evs2) = decryptAttempts evs1 ++ decryptAttempts evs2.
Proof. unfold decryptAttempts. apply omap_app. Qed.

(** ** Loops that run to their end *)

Section Totality.

Context {DB : Type}.

Lemma forOf_total {A B} (body : B -> A -> M DB B) (l : list A) :
  Forall (fun x => forall acc w, exists acc' w', body acc x w = Ok acc' w') l ->
  forall acc w, exists acc' w', forOf body l acc w = Ok acc' w'.
Proof.
  induction 1 as [|x l Hx _ IH]; intros acc w; simpl.
  - unfold ret. eauto.
  - unfold bind. destruct (Hx acc w) as (acc1 & w1 & ->). apply IH.
Qed.

Lemma forIndex_total {A B} (body : nat -> A -> B -> M DB B) (l : list A) : forall i,
  (forall k x acc w, l !! k = Some x -> exists acc' w', body (i + k)%nat x acc w = Ok acc' w') ->
  forall acc w, exists acc' w', forIndex body i l acc w = Ok acc' w'.
Proof.
  induction l as [|x l IH]; intros i Hbody acc w; simpl.
  - unfold ret. eauto.
  - unfold bind. destruct (Hbody 0%nat x acc w eq_refl) as (acc1 & w1 & Hx).
    rewrite Nat.add_0_r in Hx. rewrite Hx. apply IH.
    intros k y acc' w' Hk. replace (S i + k)%nat with (i + S k)%nat by lia.
    apply Hbody. exact Hk.
Qed.

End Totality.

(** ** Runs that stop at the first failure *)

Section Halting.

Context {DB : Type}.

Lemma halts_ret {A} (a : A) : haltsOnFailure (ret a : M DB A).
Proof. intros w. exists []. simpl. rewrite app_nil_r. split; [reflexivity|constructor]. Qed.

Lemma halts_throw {A} (e : Error) : haltsOnFailure (throw e : M DB A).
Proof.
  intros w. exists []. simpl. rewrite app_nil_r. split; [reflexivity|]. left. constructor.
Qed.

Lemma halts_bind {A B} (m : M DB A) (k : A -> M DB B) :
  haltsOnFailure m -> (forall a, haltsOnFailure (k a)) -> haltsOnFailure (bind m k).
Proof.
  intros Hm Hk w. unfold bind. destruct (Hm w) as (evs1 & Hh1 & H1).
  destruct (m w) as [a w1|e w1]; simpl in *.
  - destruct (Hk a w1) as (evs2 & Hh2 & H2). exists (evs1 ++ evs2).
    split; [rewrite Hh2, Hh1, app_assoc; reflexivity|].
    destruct (k a w1) as [b w2|e w2].
    + apply Forall_app. auto.
    + destruct H2 as [H2|(evs0 & c & -> & H2)].
      * left. apply Forall_app. auto.
      * right. exists (evs1 ++ evs0), c. rewrite app_assoc. split; [reflexivity|].
        apply Forall_app. auto.
  - exists evs1. auto.
Qed.

Lemma halts_call {A} (c : Call) (answer : Outcome A) :
  haltsOnFailure (call c answer : M DB A).
Proof.
  intros w. unfold call. destruct answer as [a|e]; simpl.
  - exists [Returned c]. split; [reflexivity|]. repeat constructor.
  - exists [Threw c e]. split; [reflexivity|]. right. exists [], c. split; [reflexivity|constructor].
Qed.

Lemma halts_dbCall {A} (c : Call) (op : DB -> Outcome (A * DB)) :
  haltsOnFailure (dbCall c op).
Proof.
  intros w. unfold dbCall. destruct (op (db w)) as [[a d]|e]; simpl.
  - exists [Returned c]. split; [reflexivity|]. repeat constructor.
  - exists [Threw c e]. split; [reflexivity|]. right. exists [], c. split; [reflexivity|constructor].
Qed.

Lemma halts_defined {A} (o : option A) : haltsOnFailure (defined o : M DB A).
Proof. destruct o; [apply halts_ret|apply halts_throw]. Qed.

Lemma halts_lift {A} (o : Outcome A) : haltsOnFailure (lift o : M DB A).
Proof. destruct o; [apply halts_ret|apply halts_throw]. Qed.

Lemma halts_getSyncedToBlock : haltsOnFailure (getSyncedToBlock : M DB Z).
Proof. intros w. exists []. simpl. rewrite app_nil_r. split; [reflexivity|constructor]. Qed.

Lemma halts_setSyncedToBlock (n : Z) : haltsOnFailure (setSyncedToBlock n : M DB unit).
Proof. intros w. exists []. simpl. rewrite app_nil_r. split; [reflexivity|constructor]. Qed.

Lemma halts_forOf {A B} (body : B -> A -> M DB B) (l : list A) :
  (forall acc x, haltsOnFailure (body acc x)) -> forall acc, haltsOnFailure (forOf body l acc).
Proof.
  intros Hbody. induction l as [|x l IH]; intros acc; simpl.
  - apply halts_ret.
  - apply halts_bind; auto.
Qed.

Lemma halts_forIndex {A B} (body : nat -> A -> B -> M DB B) (l : list A) :
  (forall i x acc, haltsOnFailure (body i x acc)) ->
  forall i acc, haltsOnFailure (forIndex body i l acc).
Proof.
  intros Hbody. induction l as [|x l IH]; intros i acc; simpl.
  - apply halts_ret.
  - apply halts_bind; auto.
Qed.

End Halting.

Section Properties.

Context {DB : Type} `{!Database DB}.
Variable publicKey : PublicKey.
Variable address : AztecAddress.
Variable getAccountPrivateKey : PublicKey -> Outcome PrivateKey.
Variable fromEncryptedBuffer :
  Buffer -> PrivateKey -> Grumpkin -> Outcome (option NoteSpendingInfo).
Variable computeNullifier : AztecAddress -> Fr -> list Fr -> Outcome Fr.
Variable siloNullifier : AztecAddress -> Fr -> Outcome Fr.

(** The engine and the vocabulary at the parameters of this section. *)
Abbreviation processLog' :=
  (processLog (DB := DB) publicKey fromEncryptedBuffer computeNullifier siloNullifier).
Abbreviation processTxLogs' :=
  (processTxLogs (DB := DB) publicKey fromEncryptedBuffer computeNullifier siloNullifier).
Abbreviation processBlock' :=
  (processBlock (DB := DB) publicKey getAccountPrivateKey fromEncryptedBuffer
     computeNullifier siloNullifier).
Abbreviation processBlockAt' :=
  (processBlockAt (DB := DB) publicKey getAccountPrivateKey fromEncryptedBuffer
     computeNullifier siloNullifier).
Abbreviation processTx' := (processTx (DB := DB) address).
Abbreviation collectBlock' := (collectBlock (DB := DB) address).
Abbreviation processBlocksAndNoteSpendingInfo' :=
  (processBlocksAndNoteSpendingInfo (DB := DB) publicKey address).
Abbreviation process' :=
  (process (DB := DB) publicKey address getAccountPrivateKey fromEncryptedBuffer
     computeNullifier siloNullifier).

Abbreviation decrypted := (decrypted fromEncryptedBuffer).
Abbreviation decrypts := (decrypts fromEncryptedBuffer).
Abbreviation matchesFrom := (matchesFrom fromEncryptedBuffer).
Abbreviation matchedPositions := (matchedPositions fromEncryptedBuffer).
Abbreviation noteOf := (noteOf publicKey computeNullifier siloNullifier).
Abbreviation stepFlat :=
  (stepFlat (DB := DB) publicKey fromEncryptedBuffer computeNullifier siloNullifier).
Abbreviation matches := (matches fromEncryptedBuffer).
Abbreviation blockDone :=
  (blockDone publicKey fromEncryptedBuffer computeNullifier siloNullifier).
Abbreviation blockScanned :=
  (blockScanned publicKey getAccountPrivateKey fromEncryptedBuffer computeNullifier
     siloNullifier).
Abbreviation txOf := (txOf address).
Abbreviation txsOf := (txsOf address).
Abbreviation removedEvents := (removedEvents publicKey).
Abbreviation persistenceCalls := (persistenceCalls publicKey).
Abbreviation ownsNoteOf := (ownsNoteOf fromEncryptedBuffer).
Abbreviation pertainingTxs := (pertainingTxs fromEncryptedBuffer).

(** ** Framing: what each stage can do to the world *)

Ltac frame :=
  repeat first
    [ apply respects_ret | apply respects_throw | apply respects_defined
    | apply respects_lift | apply respects_getSyncedToBlock
    | apply respects_call; [reflexivity | intros; reflexivity]
    | apply respects_call; [exact I | intros; exact I]
    | apply respects_dbCall; [exact I | intros; exact I]
    | apply respects_bind; [|intros]
    | apply respects_forOf; intros
    | apply respects_forIndex; intros
    | match goal with
      | |- respects _ (match ?o with _ => _ end) => destruct o
      end ].

Lemma respects_processBlock ctx lg :
  respects notPersistence (processBlock' ctx lg).
Proof. unfold processBlock. frame. Qed.

Lemma respects_blocks blocks i lgs acc :
  respects notPersistence (forIndex (processBlockAt' blocks) i lgs acc).
Proof. frame. Qed.

Lemma respects_collect data acc :
  respects notPersistence (forOf collectBlock' data acc).
Proof. frame. Qed.

Lemma respects_processBlocksAndNoteSpendingInfo data :
  respects anyEvent (processBlocksAndNoteSpendingInfo' data).
Proof.
  unfold processBlocksAndNoteSpendingInfo. apply respects_bind.
  { eapply respects_weaken; [|apply respects_collect]. intros; exact I. }
  intros b. frame.
Qed.

(** Everything [process] does before it assigns [syncedToBlock]. *)
Lemma respects_process_body blocks lgs :
  respects anyEvent
    (data <- forIndex (processBlockAt' blocks) 0 lgs [] ;;
     processBlocksAndNoteSpendingInfo' data ;;
     defined (blocks !! (length blocks - 1)%nat)).
Proof.
  apply respects_bind.
  { eapply respects_weaken; [|apply respects_blocks]. intros; exact I. }
  intros data. apply respects_bind; [apply respects_processBlocksAndNoteSpendingInfo|].
  intros _. apply respects_defined.
Qed.

(** ** The shape of a successful run of [process] *)

Lemma process_unfold blocks lgs w :
  length blocks = length lgs -> blocks <> [] ->
  process' blocks lgs w =
  match (data <- forIndex (processBlockAt' blocks) 0 lgs [] ;;
         processBlocksAndNoteSpendingInfo' data ;;
         defined (blocks !! (length blocks - 1)%nat)) w with
  | Ok lastCtx w2 =>
      Ok tt (mkWorld (number (block lastCtx)) (db w2) (remoteBlockHeight w2)
               (history w2 ++ [Returned (Log (LogSynched (number (block lastCtx))))]))
  | Throw e w2 => Throw e w2
  end.
Proof.
  intros Hlen Hne. unfold process.
  assert (Hz : (length blocks =? 0)%nat = false).
  { apply Nat.eqb_neq. destruct blocks; [congruence|simpl; lia]. }
  rewrite <- Hlen, Nat.eqb_refl, Hz. cbn [negb]. unfold bind.
  destruct (forIndex _ 0 lgs [] w) as [data w1|e w1]; [|reflexivity].
  destruct (processBlocksAndNoteSpendingInfo _ _ data w1) as [[] w2|e w2]; [|reflexivity].
  destruct (defined _ w2) as [c w3|e w3]; reflexivity.
Qed.

Lemma process_Ok_inv blocks lgs w w' :
  process' blocks lgs w = Ok tt w' -> blocks <> [] ->
  length blocks = length lgs /\
  exists data w1 w2 lastCtx,
    forIndex (processBlockAt' blocks) 0 lgs [] w = Ok data w1 /\
    processBlocksAndNoteSpendingInfo' data w1 = Ok tt w2 /\
    last blocks = Some lastCtx /\
    w' = mkWorld (number (block lastCtx)) (db w2) (remoteBlockHeight w2)
           (history w2 ++ [Returned (Log (LogSynched (number (block lastCtx))))]).
Proof.
  intros Hrun Hne.
  assert (Hlen : length blocks = length lgs).
  { unfold process in Hrun.
    destruct (length blocks =? length lgs)%nat eqn:E; [|discriminate].
    apply Nat.eqb_eq in E. exact E. }
  split; [exact Hlen|].
  rewrite process_unfold in Hrun by assumption.
  match type of Hrun with match ?b w with _ => _ end = _ =>
    destruct (b w) as [lastCtx w2|e w2] eqn:Hbody; [|discriminate] end.
  apply bind_Ok in Hbody as (data & w1 & Hscan & Hbody).
  apply bind_Ok in Hbody as ([] & w2' & Hpersist & Hlast).
  exists data, w1, w2, lastCtx.
  destruct (blocks !! (length blocks - 1)%nat) as [c|] eqn:Hlk; [|discriminate].
  injection Hlast as -> ->.
  split; [exact Hscan|]. split; [exact Hpersist|]. split.
  - rewrite last_lookup. replace (pred (length blocks)) with (length blocks - 1)%nat by lia.
    exact Hlk.
  - injection Hrun as <-. reflexivity.
Qed.

(** A run of [process] that throws leaves [syncedToBlock] as it was, and the
    error of a collaborator that threw is the error of the run. *)
Lemma process_respects blocks lgs w :
  (forall e w', process' blocks lgs w = Throw e w' ->
     syncedToBlock w' = syncedToBlock w) /\
  (forall c e, Threw c e ∈ newEvents w (world_of (process' blocks lgs w)) ->
     process' blocks lgs w = Throw e (world_of (process' blocks lgs w))).
Proof.
  destruct (decide (length blocks = length lgs)) as [Hlen|Hlen].
  2:{ unfold process. apply Nat.eqb_neq in Hlen. rewrite Hlen. simpl. split.
      - intros e w' [= _ <-]. reflexivity.
      - unfold newEvents. rewrite drop_all. intros c e Hin. inversion Hin. }
  destruct (decide (blocks = [])) as [->|Hne].
  { destruct lgs; [|discriminate]. split.
    - intros e w' Heq. discriminate.
    - simpl. unfold newEvents. rewrite drop_all. intros c e Hin. inversion Hin. }
  rewrite process_unfold by assumption.
  pose proof (respects_process_body blocks lgs w) as (Hs & evs & Hh & _ & Hbad).
  match goal with |- context [match ?b w with _ => _ end] =>
    destruct (b w) as [lastCtx w2|e w2] eqn:Hbody end; simpl in *.
  - split; [intros e w' Heq; discriminate|].
    intros c e Hin. exfalso.
    unfold newEvents in Hin. simpl in Hin. rewrite Hh in Hin.
    rewrite <- app_assoc, drop_app_length in Hin.
    apply elem_of_app in Hin as [Hin|Hin].
    + specialize (Hbad _ _ Hin). discriminate.
    + apply list_elem_of_singleton in Hin. discriminate.
  - split.
    + intros e' w' [= _ <-]. exact Hs.
    + intros c e' Hin. rewrite (newEvents_app _ _ _ Hh) in Hin.
      specialize (Hbad _ _ Hin). injection Hbad as ->. reflexivity.
Qed.

(** ** The input contract and the empty batch *)

(** C7. When the number of block contexts differs from the number of
    encrypted-log collections, [process] throws the length-mismatch error at
    once: the world after the throw is the world before the call, so nothing
    was decrypted, no collaborator was called (the history is the same), no
    persistence call was issued and [syncedToBlock] is unchanged. *)
Theorem process_length_mismatch (blocks : list L2BlockContext)
    (lgs : list L2BlockL2Logs) (w : World DB) :
  length blocks <> length lgs ->
  process' blocks lgs w = Throw (ErrLengthMismatch (length blocks) (length lgs)) w.
Proof.
  intros Hlen. unfold process.
  apply Nat.eqb_neq in Hlen. rewrite Hlen. reflexivity.
Qed.

(** C9. For the empty batch [process] returns successfully and the world
    after the call is the world before it: no persistence call, no call to
    the key store or to the cryptographic collaborators (the history is the
    same), [syncedToBlock], the database and everything else unchanged. *)
Theorem process_empty_batch (w : World DB) :
  process' [] [] w = Ok tt w.
Proof. reflexivity. Qed.

(** ** The watermark *)

(** C10. When the node answers with height [h], [isSynchronised] returns
    the boolean [syncedToBlock =? h] after exactly one height query: it is
    [true] if and only if the watermark equals [h], and [false] whenever the
    watermark is strictly greater than [h]. *)
Theorem isSynchronised_iff_equal (w : World DB) (h : Z) :
  remoteBlockHeight w = Returns h ->
  exists b,
    isSynchronised w = Ok b (record (Returned GetBlockHeight) w) /\
    (b = true <-> syncedToBlock w = h) /\
    ((h < syncedToBlock w)%Z -> b = false).
Proof.
  intros Hh. exists (syncedToBlock w =? h)%Z.
  unfold isSynchronised, bind, getBlockHeight, call. rewrite Hh. simpl.
  split; [reflexivity|]. split.
  - apply Z.eqb_eq.
  - intros Hlt. apply Z.eqb_neq. lia.
Qed.

(** C3. If a call that [process] made to a collaborator threw (the
    private-key fetch, a decryption, a nullifier derivation, or one of the
    three persistence operations), then [process] throws that same error to
    its caller and [syncedToBlock] has the value it had before the call. *)
Theorem process_failure_is_propagated (blocks : list L2BlockContext)
    (lgs : list L2BlockL2Logs) (w : World DB) (c : Call) (e : Error) :
  Threw c e ∈ newEvents w (world_of (process' blocks lgs w)) ->
  process' blocks lgs w = Throw e (world_of (process' blocks lgs w)) /\
  syncedToBlock (world_of (process' blocks lgs w)) = syncedToBlock w.
Proof.
  intros Hin. destruct (process_respects blocks lgs w) as [Hsync Hprop].
  pose proof (Hprop _ _ Hin) as Hthrow. split; [exact Hthrow|].
  eapply Hsync. exact Hthrow.
Qed.

(** C4 (amended). After a successful [process] of a non-empty batch,
    [syncedToBlock] is the number of the last block of the batch, whatever it
    was before; it is the maximum of the old value and that number, and so
    has not decreased, whenever the last block's number is at least the old
    value. *)
Theorem process_sets_watermark_to_last (blocks : list L2BlockContext)
    (lgs : list L2BlockL2Logs) (w w' : World DB) :
  blocks <> [] ->
  process' blocks lgs w = Ok tt w' ->
  exists lastCtx,
    last blocks = Some lastCtx /\
    syncedToBlock w' = number (block lastCtx) /\
    ((syncedToBlock w <= number (block lastCtx))%Z ->
       syncedToBlock w' = Z.max (syncedToBlock w) (number (block lastCtx)) /\
       (syncedToBlock w <= syncedToBlock w')%Z).
Proof.
  intros Hne Hrun.
  destruct (process_Ok_inv _ _ _ _ Hrun Hne)
    as (_ & data & w1 & w2 & lastCtx & _ & _ & Hlast & ->).
  exists lastCtx. split; [exact Hlast|]. simpl. split; [reflexivity|].
  intros Hle. lia.
Qed.

(** ** Decryption and matching *)

Lemma forOf_map {A B C} (g : A -> B) (body : C -> B -> M DB C) (l : list A) acc w :
  forOf body (map g l) acc w = forOf (fun c x => body c (g x)) l acc w.
Proof.
  revert acc w. induction l as [|x l IH]; intros acc w; simpl; [reflexivity|].
  unfold bind. destruct (body acc (g x) w); [apply IH|reflexivity].
Qed.

Lemma processTxLogs_flat start sk t txl st w :
  processTxLogs' start sk GrumpkinCurve t txl st w =
  forOf (stepFlat start sk) (map (pair t) (concat (map logs (functionLogs txl)))) st w.
Proof.
  unfold processTxLogs. destruct txl as [fls]. simpl.
  revert st w. induction fls as [|fl fls IH]; intros st w; simpl; [reflexivity|].
  rewrite map_app, forOf_app. unfold bind.
  rewrite forOf_map. unfold stepFlat. simpl.
  destruct (forOf _ (logs fl) st w) as [st1 w1|e w1]; [apply IH|reflexivity].
Qed.

Lemma scan_flat start sk i txls st w :
  forIndex (processTxLogs' start sk GrumpkinCurve) i txls st w =
  forOf (stepFlat start sk) (flatLogsFrom i txls) st w.
Proof.
  revert i st w. induction txls as [|txl txls IH]; intros i st w; simpl; [reflexivity|].
  rewrite forOf_app. unfold bind. rewrite processTxLogs_flat.
  destruct (forOf _ _ st w) as [st1 w1|e w1]; [apply IH|reflexivity].
Qed.

(** One buffer: what a successful pass through the loop body did. *)
Lemma processLog_Ok start sk t st buf w st' w' :
  processLog' start sk GrumpkinCurve t st buf w = Ok st' w' ->
  match decrypted sk buf with
  | None => st' = mkBlockScan (jsAdd (logIndexWithinBlock st) 1)
                    (scan_userPertainingTxIndices st) (scan_noteSpendingInfoDaos st)
  | Some info =>
      exists d, dao_info d = info /\
                index d = jsAdd start (logIndexWithinBlock st) /\
                dao_publicKey d = publicKey /\
                (exists inner,
                   computeNullifier (contractAddress info) (storageSlot info)
                     (notePreimage info) = Returns inner /\
                   siloNullifier (contractAddress info) inner = Returns (nullifier d)) /\
                st' = mkBlockScan (jsAdd (logIndexWithinBlock st) 1)
                        (setAdd t (scan_userPertainingTxIndices st))
                        (scan_noteSpendingInfoDaos st ++ [d])
  end.
Proof.
  unfold processLog, decrypted, computeSiloedNullifier, bind, call, ret.
  destruct (fromEncryptedBuffer buf sk GrumpkinCurve) as [[info|]|e]; simpl.
  - destruct (computeNullifier _ _ _) as [inner|e]; [|discriminate].
    destruct (siloNullifier _ inner) as [nf|e] eqn:Hsilo; [|discriminate].
    intros [= <- _]. eexists. repeat split; simpl; eauto.
  - intros [= <- _]. reflexivity.
  - discriminate.
Qed.

(** The whole scan of a block, as an invariant of the flattened loop. *)
Lemma stepFlat_loop start sk (l : list (nat * Buffer)) : forall (k : nat) st w st' w',
  logIndexWithinBlock st = logIndexAt k ->
  forOf (stepFlat start sk) l st w = Ok st' w' ->
  logIndexWithinBlock st' = logIndexAt (k + length l) /\
  scan_userPertainingTxIndices st' =
    pertainingAfter (scan_userPertainingTxIndices st) (matchesFrom sk k l) /\
  exists new,
    scan_noteSpendingInfoDaos st' = scan_noteSpendingInfoDaos st ++ new /\
    Forall2 (noteOf start) (matchesFrom sk k l) new.
Proof.
  induction l as [|[t buf] l IH]; intros k st w st' w' Hk Hrun; simpl in Hrun.
  - injection Hrun as <- _. simpl. rewrite Nat.add_0_r. split; [exact Hk|].
    split; [reflexivity|]. exists []. rewrite app_nil_r. split; [reflexivity|constructor].
  - apply bind_Ok in Hrun as (st1 & w1 & Hstep & Hrest).
    apply processLog_Ok in Hstep. simpl in Hstep. simpl matchesFrom.
    destruct (decrypted sk buf) as [info|].
    + destruct Hstep as (d & Hinfo & Hidx & Hpk & Hnf & ->).
      eapply (IH (S k)) in Hrest; [|simpl; rewrite Hk; reflexivity].
      destruct Hrest as (Hi & Hp & new & Hn & HF).
      simpl in *. rewrite Nat.add_succ_r. split; [exact Hi|]. split; [exact Hp|].
      exists (d :: new). split; [rewrite Hn, <- app_assoc; reflexivity|].
      constructor; [|exact HF].
      unfold noteOf. simpl. rewrite Hk in Hidx. auto.
    + subst st1.
      eapply (IH (S k)) in Hrest; [|simpl; rewrite Hk; reflexivity].
      destruct Hrest as (Hi & Hp & new & Hn & HF).
      simpl in *. rewrite Nat.add_succ_r. split; [exact Hi|]. split; [exact Hp|].
      exists new. auto.
Qed.

(** Facts about the matched logs. *)
Lemma matchedPositions_lt sk (flat : list (nat * Buffer)) (i : nat) :
  In i (matchedPositions sk flat) -> i < length flat.
Proof.
  unfold matchedPositions. intros Hi.
  apply List.filter_In in Hi as [Hi _]. apply in_seq in Hi as [_ Hi]. exact Hi.
Qed.

Lemma matchesFrom_positions sk k l :
  map m_position (matchesFrom sk k l) = map (Nat.add k) (matchedPositions sk l).
Proof.
  unfold matchedPositions. revert k. induction l as [|x l IH]; intros k; [reflexivity|].
  simpl length. simpl seq. rewrite <- seq_shift. simpl List.filter.
  rewrite List.filter_map_swap. unfold decrypts at 1. simpl matchesFrom.
  assert (Hshift : map (Nat.add k)
                     (map S (List.filter (fun i => match l !! i with
                                                   | Some y => decrypts sk y
                                                   | None => false
                                                   end) (seq 0 (length l))))
                   = map m_position (matchesFrom sk (S k) l)).
  { rewrite IH, map_map. apply map_ext. intros i. lia. }
  destruct (decrypted sk (snd x)); simpl.
  - rewrite Nat.add_0_r. f_equal. symmetry. exact Hshift.
  - symmetry. exact Hshift.
Qed.

Lemma matchesFrom_infos sk k l :
  map m_info (matchesFrom sk k l) = omap (fun x => decrypted sk (snd x)) l.
Proof.
  revert k. induction l as [|x l IH]; intros k; simpl; [reflexivity|].
  destruct (decrypted sk (snd x)); simpl; rewrite IH; reflexivity.
Qed.

Lemma matchesFrom_length sk k l :
  length (matchesFrom sk k l) = length (List.filter (decrypts sk) l).
Proof.
  revert k. induction l as [|x l IH]; intros k; simpl; [reflexivity|].
  unfold decrypts at 1. destruct (decrypted sk (snd x)); simpl; rewrite IH; reflexivity.
Qed.

Lemma matchesFrom_txIndex sk k l t :
  t ∈ map m_txIndex (matchesFrom sk k l) <->
  exists buf, (t, buf) ∈ l /\ is_Some (decrypted sk buf).
Proof.
  revert k. induction l as [|[t0 b0] l IH]; intros k; simpl.
  - split; [intros Hin; inversion Hin|]. intros (buf & Hin & _). inversion Hin.
  - destruct (decrypted sk b0) as [info|] eqn:Hd; simpl.
    + rewrite elem_of_cons, IH. split.
      * intros [->|(buf & Hin & Hs)].
        -- exists b0. split; [left|]. rewrite Hd. eauto.
        -- exists buf. split; [right; exact Hin|exact Hs].
      * intros (buf & Hin & Hs). apply elem_of_cons in Hin as [[= -> ->]|Hin]; eauto.
    + rewrite IH. split.
      * intros (buf & Hin & Hs). exists buf. split; [right; exact Hin|exact Hs].
      * intros (buf & Hin & Hs). apply elem_of_cons in Hin as [[= -> ->]|Hin]; eauto.
        rewrite Hd in Hs. destruct Hs as [? [=]].
Qed.

Lemma processBlock_Ok ctx lg w pd w' :
  processBlock' ctx lg w = Ok pd w' ->
  exists sk, getAccountPrivateKey publicKey = Returns sk /\ blockDone sk ctx lg pd.
Proof.
  unfold processBlock. intros Hrun.
  apply bind_Ok in Hrun as (sk & w1 & Hkey & Hrun).
  apply bind_Ok in Hrun as (curve & w2 & _ & Hrun).
  apply bind_Ok in Hrun as (st & w3 & Hscan & Hret).
  exists sk. split.
  { unfold call in Hkey. destruct (getAccountPrivateKey publicKey); [|discriminate].
    injection Hkey as -> _. reflexivity. }
  destruct curve. rewrite scan_flat in Hscan.
  apply (stepFlat_loop _ _ _ 0%nat) in Hscan as (_ & Hp & new & Hn & HF); [|reflexivity].
  injection Hret as <- _. unfold blockDone, matches, flatLogs. simpl in *.
  subst. auto.
Qed.

(** ** The batch: scanning every block *)

Lemma blocks_loop blocks lgs : forall i acc w data w',
  forIndex (processBlockAt' blocks) i lgs acc w = Ok data w' ->
  exists new, data = acc ++ new /\ Forall2 blockScanned (zip (drop i blocks) lgs) new.
Proof.
  induction lgs as [|lg lgs IH]; intros i acc w data w' Hrun; simpl in Hrun.
  - injection Hrun as <- _. exists []. rewrite app_nil_r. split; [reflexivity|].
    destruct (drop i blocks); constructor.
  - apply bind_Ok in Hrun as (acc1 & w1 & Hstep & Hrest).
    unfold processBlockAt in Hstep.
    apply bind_Ok in Hstep as (ctx & w0 & Hctx & Hstep).
    apply bind_Ok in Hstep as (pd & w2 & Hblock & Hret).
    destruct (blocks !! i) as [c|] eqn:Hlk; [|discriminate].
    injection Hctx as -> ->. injection Hret as <- <-.
    apply processBlock_Ok in Hblock.
    apply IH in Hrest as (new & -> & HF).
    exists (pd :: new). split; [rewrite <- app_assoc; reflexivity|].
    rewrite (drop_S _ _ _ Hlk). simpl. constructor; [exact Hblock|exact HF].
Qed.

(** ** The batch: transaction records *)

Lemma processTx_Ok ctx daos j t acc w txs w' :
  processTx' ctx daos j t acc w = Ok txs w' ->
  exists tx, txs = acc ++ [tx] /\ txOf ctx t tx.
Proof.
  unfold processTx. intros Hrun.
  apply bind_Ok in Hrun as (h & w1 & Hh & Hrun).
  apply bind_Ok in Hrun as ([] & w2 & _ & Hrun).
  apply bind_Ok in Hrun as (l2tx & w3 & Htx & Hrun).
  apply bind_Ok in Hrun as (first & w4 & Hfirst & Hrun).
  apply bind_Ok in Hrun as (deployed & w5 & Hdep & Hret).
  injection Hret as <- _.
  destruct (getTxHash ctx t) as [h'|] eqn:Hhash; [|discriminate]. injection Hh as -> _.
  unfold getTx in Htx.
  destruct (block_txs (block ctx) !! t) as [l2tx'|] eqn:Hl2; [|discriminate].
  injection Htx as -> _.
  destruct (newContractData l2tx !! 0%nat) as [first'|] eqn:Hf; [|discriminate].
  injection Hfirst as -> _.
  eexists. split; [reflexivity|]. unfold txOf. simpl.
  repeat split; auto. exists l2tx, first. repeat split; auto.
  - intros [a Ha]. subst deployed.
    destruct (isZero (cd_contractAddress first)); [discriminate|reflexivity].
  - intros Hz. rewrite Hz in Hdep. simpl in Hdep.
    apply bind_Ok in Hdep as (d & w6 & _ & Hd). injection Hd as <- _. eauto.
Qed.

Lemma txs_loop ctx daos (ts : list nat) : forall j acc w txs w',
  forIndex (processTx' ctx daos) j ts acc w = Ok txs w' ->
  exists new, txs = acc ++ new /\ Forall2 (txOf ctx) ts new.
Proof.
  induction ts as [|t ts IH]; intros j acc w txs w' Hrun; simpl in Hrun.
  - injection Hrun as <- _. exists []. rewrite app_nil_r. split; [reflexivity|constructor].
  - apply bind_Ok in Hrun as (acc1 & w1 & Hstep & Hrest).
    apply processTx_Ok in Hstep as (tx & -> & Htx).
    apply IH in Hrest as (new & -> & HF).
    exists (tx :: new). split; [rewrite <- app_assoc; reflexivity|].
    constructor; assumption.
Qed.

Lemma collect_loop (data : list ProcessedData) : forall acc w b w',
  forOf collectBlock' data acc w = Ok b w' ->
  noteSpendingInfoDaosBatch b =
    noteSpendingInfoDaosBatch acc ++ concat (map noteSpendingInfoDaos data) /\
  batch_newNullifiers b =
    batch_newNullifiers acc
      ++ concat (map (fun pd => newNullifiers (block (blockContext pd))) data) /\
  exists txss, txDaos b = txDaos acc ++ concat txss /\ Forall2 txsOf data txss.
Proof.
  induction data as [|pd data IH]; intros acc w b w' Hrun; simpl in Hrun.
  - injection Hrun as <- _. simpl. rewrite !app_nil_r. split; [reflexivity|].
    split; [reflexivity|]. exists []. simpl. rewrite app_nil_r. split; [reflexivity|constructor].
  - apply bind_Ok in Hrun as (acc1 & w1 & Hstep & Hrest).
    unfold collectBlock in Hstep.
    apply bind_Ok in Hstep as (txs & w2 & Htxs & Hret). injection Hret as <- _.
    apply txs_loop in Htxs as (new & -> & HF).
    apply IH in Hrest as (Hn & Hnf & txss & Ht & HFs). simpl in *.
    split; [rewrite Hn, <- app_assoc; reflexivity|].
    split; [rewrite Hnf, <- app_assoc; reflexivity|].
    exists (new :: txss). simpl. split; [rewrite Ht, <- !app_assoc; reflexivity|].
    constructor; assumption.
Qed.

(** ** The batch: persistence *)

Lemma logEach_run line (daos : list NoteSpendingInfoDao) (w : World DB) :
  logEach line daos w =
  Ok tt (mkWorld (syncedToBlock w) (db w) (remoteBlockHeight w)
           (history w ++ map (fun d => Returned (Log (line (nullifier d)))) daos)).
Proof.
  unfold logEach. revert w. induction daos as [|d daos IH]; intros w; simpl.
  - rewrite app_nil_r. destruct w; reflexivity.
  - unfold bind, log, call. rewrite IH. simpl. rewrite <- app_assoc. reflexivity.
Qed.

Lemma filter_logs {A} (f : A -> LogLine) (l : list A) :
  List.filter isPersistence (map (fun d => Returned (Log (f d))) l) = [].
Proof. induction l as [|x l IH]; simpl; auto. Qed.

Lemma filter_notPersistence (evs : list Event) :
  Forall notPersistence evs -> List.filter isPersistence evs = [].
Proof.
  induction 1 as [|ev evs Hev _ IH]; simpl; [reflexivity|].
  unfold notPersistence in Hev. rewrite Hev. exact IH.
Qed.

Lemma persistence_events_filter daos txs nullifiers removed :
  List.filter isPersistence
    (addedEvents daos ++ txEvents txs ++ removedEvents nullifiers removed)
  = persistenceCalls daos txs nullifiers.
Proof.
  unfold persistenceCalls, removedEvents.
  rewrite !List.filter_app. simpl. rewrite filter_logs.
  f_equal; [|f_equal].
  - destruct daos; simpl; [reflexivity|]. rewrite filter_logs. reflexivity.
  - destruct txs; reflexivity.
Qed.

(** What a successful [processBlocksAndNoteSpendingInfo] did. *)
Lemma persist_Ok data w w' :
  processBlocksAndNoteSpendingInfo' data w = Ok tt w' ->
  exists b w1 removed dBefore,
    forOf collectBlock' data (mkBatch [] [] []) w = Ok b w1 /\
    removeNullifiedNoteSpendingInfo (batch_newNullifiers b) publicKey dBefore
      = Returns (removed, db w') /\
    syncedToBlock w' = syncedToBlock w1 /\
    history w' = history w1 ++ addedEvents (noteSpendingInfoDaosBatch b)
                   ++ txEvents (txDaos b)
                   ++ removedEvents (batch_newNullifiers b) removed.
Proof.
  unfold processBlocksAndNoteSpendingInfo. intros Hrun.
  apply bind_Ok in Hrun as (b & w1 & Hcollect & Hrun).
  apply bind_Ok in Hrun as ([] & w2 & Hadd & Hrun).
  apply bind_Ok in Hrun as ([] & w3 & Htx & Hrun).
  apply bind_Ok in Hrun as (removed & w4 & Hrem & Hlog).
  exists b, w1, removed, (db w3). split; [exact Hcollect|].
  assert (H2 : syncedToBlock w2 = syncedToBlock w1 /\
               history w2 = history w1 ++ addedEvents (noteSpendingInfoDaosBatch b)).
  { destruct (noteSpendingInfoDaosBatch b) as [|d daos] eqn:Hb; simpl in Hadd.
    - injection Hadd as <-. simpl. rewrite app_nil_r. auto.
    - apply bind_Ok in Hadd as ([] & w2' & Hcall & Hl). rewrite logEach_run in Hl.
      injection Hl as <-. unfold dbCall in Hcall.
      destruct (addNoteSpendingInfoBatch (d :: daos) (db w1)) as [[[] d1]|e]; [|discriminate].
      injection Hcall as <-. simpl. rewrite <- app_assoc. auto. }
  assert (H3 : syncedToBlock w3 = syncedToBlock w2 /\
               history w3 = history w2 ++ txEvents (txDaos b)).
  { destruct (txDaos b) as [|tx txs] eqn:Hb; simpl in Htx.
    - injection Htx as <-. simpl. rewrite app_nil_r. auto.
    - unfold dbCall in Htx.
      destruct (addTxs (tx :: txs) (db w2)) as [[[] d1]|e]; [|discriminate].
      injection Htx as <-. simpl. auto. }
  unfold dbCall in Hrem.
  destruct (removeNullifiedNoteSpendingInfo (batch_newNullifiers b) publicKey (db w3))
    as [[removed' d3]|e] eqn:Hop; [|discriminate].
  injection Hrem as -> <-. rewrite logEach_run in Hlog. injection Hlog as <-. simpl.
  destruct H2 as [Hs2 Hh2], H3 as [Hs3 Hh3].
  split; [reflexivity|]. split; [congruence|].
  rewrite Hh3, Hh2. unfold removedEvents. rewrite <- !app_assoc. reflexivity.
Qed.

(** ** The shape of a successful batch *)

Lemma process_Ok_shape blocks lgs w w' :
  process' blocks lgs w = Ok tt w' -> blocks <> [] ->
  exists sk data txss removed dBefore,
    getAccountPrivateKey publicKey = Returns sk /\
    Forall2 (fun x pd => blockDone sk (fst x) (snd x) pd) (zip blocks lgs) data /\
    Forall2 txsOf data txss /\
    removeNullifiedNoteSpendingInfo (batchNullifiers blocks) publicKey dBefore
      = Returns (removed, db w') /\
    List.filter isPersistence (newEvents w w')
      = persistenceCalls (concat (map noteSpendingInfoDaos data)) (concat txss)
          (batchNullifiers blocks).
Proof.
  intros Hrun Hne.
  destruct (process_Ok_inv _ _ _ _ Hrun Hne)
    as (Hlen & data & w1 & w2 & lastCtx & Hscan & Hpersist & Hlast & ->).
  pose proof (respects_blocks blocks 0 lgs [] w) as (_ & evs1 & Hh1 & Hnp1 & _).
  rewrite Hscan in Hh1. simpl in Hh1.
  apply blocks_loop in Hscan as (new & -> & HF). simpl in HF. rewrite drop_0 in HF.
  change ([] ++ new) with new in Hpersist.
  apply persist_Ok in Hpersist as (b & w1' & removed & dBefore & Hcollect & Hrem & _ & Hh2).
  pose proof (respects_collect new (mkBatch [] [] []) w1) as (_ & evs2 & Hh3 & Hnp2 & _).
  rewrite Hcollect in Hh3. simpl in Hh3.
  apply collect_loop in Hcollect as (Hn & Hnf & txss & Ht & HFt). simpl in *.
  (* the key: the batch is not empty, so the first block fetched it *)
  assert (Hkey : exists sk, getAccountPrivateKey publicKey = Returns sk).
  { destruct blocks as [|b0 blocks]; [congruence|].
    destruct lgs as [|lg lgs]; [discriminate|]. simpl in HF.
    inversion HF as [|? ? ? ? (sk & Hsk & _)]. eauto. }
  destruct Hkey as (sk & Hsk).
  assert (Hnulls : batch_newNullifiers b = batchNullifiers blocks).
  { rewrite Hnf. unfold batchNullifiers. clear -HF Hlen.
    revert lgs new Hlen HF. induction blocks as [|b0 blocks IH]; intros lgs new Hlen HF.
    - inversion HF. reflexivity.
    - destruct lgs as [|lg lgs]; [discriminate|]. simpl in HF.
      inversion HF as [|? pd ? new' (sk' & _ & Hctx & _) HF']; subst. simpl in *.
      subst. f_equal. eapply IH; [|exact HF']. lia. }
  exists sk, new, txss, removed, dBefore. split; [exact Hsk|].
  split.
  { eapply Forall2_impl; [exact HF|]. intros x pd (sk' & Hsk' & Hd).
    rewrite Hsk in Hsk'. injection Hsk' as <-. exact Hd. }
  split; [exact HFt|]. split; [rewrite <- Hnulls; exact Hrem|].
  unfold newEvents. simpl. rewrite Hh2, Hh3, Hh1.
  rewrite <- !app_assoc, drop_app_length.
  rewrite !List.filter_app, (filter_notPersistence _ Hnp1), (filter_notPersistence _ Hnp2).
  rewrite Hn, Ht, Hnulls.
  rewrite <- (persistence_events_filter _ _ _ removed), !List.filter_app.
  change (List.filter isPersistence [Returned (Log (LogSynched (number (block lastCtx))))])
    with (@nil Event).
  rewrite !app_nil_r. reflexivity.
Qed.

(** ** Decryption selectivity and leaf indices *)

Lemma pertaining_owns sk lg t :
  t ∈ pertainingAfter [] (matches sk lg) <-> ownsNoteOf sk lg t.
Proof.
  rewrite pertainingAfter_elem. unfold matches. rewrite matchesFrom_txIndex.
  unfold ownsNoteOf. split.
  - intros [Hin|(buf & Hin & Hs)]; [inversion Hin|].
    apply flatLogs_elem in Hin as (txl & fl & H1 & H2 & H3). eauto 8.
  - intros (txl & fl & buf & H1 & H2 & H3 & Hs). right. exists buf.
    split; [|exact Hs]. apply flatLogs_elem. eauto.
Qed.

(** C6. When the scan of a block succeeds, it produces exactly as many note
    records as there are raw buffers of the block that decrypt under the
    engine's private key (K of the N buffers), their payloads are the
    decrypted payloads in the order of decryption, and the list of
    pertaining transaction indices has no duplicates and holds exactly the
    indices of the transactions with a buffer that decrypts. *)
Theorem decryption_selectivity (ctx : L2BlockContext) (lg : L2BlockL2Logs)
    (w w' : World DB) (pd : ProcessedData) :
  processBlock' ctx lg w = Ok pd w' ->
  exists sk,
    getAccountPrivateKey publicKey = Returns sk /\
    length (noteSpendingInfoDaos pd) = length (List.filter (decrypts sk) (flatLogs lg)) /\
    map dao_info (noteSpendingInfoDaos pd)
      = omap (fun x => decrypted sk (snd x)) (flatLogs lg) /\
    NoDup (userPertainingTxIndices pd) /\
    forall t, t ∈ userPertainingTxIndices pd <-> ownsNoteOf sk lg t.
Proof.
  intros Hrun. apply processBlock_Ok in Hrun as (sk & Hsk & _ & Hp & HF).
  exists sk. split; [exact Hsk|]. split; [|split; [|split]].
  - rewrite <- (Forall2_length _ _ _ HF). apply matchesFrom_length.
  - rewrite <- matchesFrom_infos with (k := 0%nat). fold (matches sk lg).
    clear Hp. induction HF as [|m d ms ds (Hinfo & _) _ IH]; simpl; [reflexivity|].
    rewrite Hinfo, IH. reflexivity.
  - rewrite Hp. apply pertainingAfter_NoDup. constructor.
  - intros t. rewrite Hp. apply pertaining_owns.
Qed.

Lemma noteOf_indices start (ms : list Match) (ds : list NoteSpendingInfoDao) :
  Forall2 (noteOf start) ms ds ->
  map index ds = map (fun i => jsAdd start (logIndexAt i)) (map m_position ms).
Proof.
  induction 1 as [|m d ms ds (_ & Hidx & _) _ IH]; simpl; [reflexivity|].
  rewrite Hidx, IH. reflexivity.
Qed.

Lemma persistenceCalls_notes daos txs nullifiers evs :
  List.filter isPersistence evs = persistenceCalls daos txs nullifiers ->
  daos <> [] -> Returned (AddNoteSpendingInfoBatch daos) ∈ evs.
Proof.
  intros Hf Hne. apply list_elem_of_In.
  apply (proj1 (List.filter_In isPersistence _ evs)). rewrite Hf.
  apply list_elem_of_In. unfold persistenceCalls.
  destruct daos; [congruence|]. left.
Qed.

Lemma persistenceCalls_txs daos txs nullifiers evs :
  List.filter isPersistence evs = persistenceCalls daos txs nullifiers ->
  txs <> [] -> Returned (AddTxs txs) ∈ evs.
Proof.
  intros Hf Hne. apply list_elem_of_In.
  apply (proj1 (List.filter_In isPersistence _ evs)). rewrite Hf.
  apply list_elem_of_In. unfold persistenceCalls.
  apply elem_of_app. right. destruct txs; [congruence|]. left.
Qed.

(** C2 (amended). After a successful [process], for every block of the batch
    the leaf indices of its note records are, in order, the number
    [dataStartIndexForBlock + logIndexWithinBlock] for the positions [i] of
    the raw buffers that decrypt, where [logIndexWithinBlock] is the counter
    after [i] increments and [i] counts every raw buffer of the block,
    matched or not, in the order transactions, function-log groups, buffers.
    Both the increments and the sum are additions of numbers.  Where the
    first leaf index of the block is not negative and, with the number of raw
    buffers of the block added, is at most 2^53, the leaf index is exactly
    [dataStartIndexForBlock + i].  The per-block records, put together, are
    the batch handed to the store. *)
Theorem leaf_index_of_decrypted_logs (blocks : list L2BlockContext)
    (lgs : list L2BlockL2Logs) (w w' : World DB) :
  process' blocks lgs w = Ok tt w' -> blocks <> [] ->
  exists sk notess,
    getAccountPrivateKey publicKey = Returns sk /\
    Forall2
      (fun x notes =>
         map index notes =
         map (fun i => jsAdd (nextAvailableLeafIndex (block (fst x))) (logIndexAt i))
           (matchedPositions sk (flatLogs (snd x))) /\
         (safeLeafRange x ->
          map index notes =
          map (fun i => (nextAvailableLeafIndex (block (fst x)) + Z.of_nat i)%Z)
            (matchedPositions sk (flatLogs (snd x)))))
      (zip blocks lgs) notess /\
    (concat notess <> [] ->
       Returned (AddNoteSpendingInfoBatch (concat notess)) ∈ newEvents w w').
Proof.
  intros Hrun Hne.
  destruct (process_Ok_shape _ _ _ _ Hrun Hne)
    as (sk & data & txss & removed & dBefore & Hsk & HF & _ & _ & Hcalls).
  exists sk, (map noteSpendingInfoDaos data). split; [exact Hsk|]. split.
  - apply Forall2_fmap_r. eapply Forall2_impl; [exact HF|].
    intros [ctx lg] pd (_ & _ & Hn). simpl in *.
    apply noteOf_indices in Hn. unfold matches in Hn.
    rewrite matchesFrom_positions in Hn.
    change (Nat.add 0) with (fun i : nat => i) in Hn. rewrite map_id in Hn.
    split; [exact Hn|].
    intros [Hstart Hend]. simpl in Hstart, Hend. rewrite Hn.
    apply map_ext_in. intros i Hi.
    apply matchedPositions_lt in Hi.
    apply leaf_index_exact; [exact Hstart|].
    apply Z.le_trans with (2 := Hend).
    apply Z.add_le_mono_l, Nat2Z.inj_le, Nat.lt_le_incl, Hi.
  - intros Hnotes. eapply persistenceCalls_notes; eauto.
Qed.

(** ** Transaction records *)

(** C5. After a successful [process], the transaction records of the batch
    are, block by block, one record for each pertaining transaction index of
    the block (the indices, without duplicates, of the transactions of which
    the engine owns a note); the origin of each record is the engine's
    address, and its deployed-contract address is set if and only if the
    first contract-deployment entry of that transaction is non-zero and the
    engine owns a note of that transaction.  These records, put together,
    are the batch handed to the store. *)
Theorem stored_tx_per_pertaining_tx (blocks : list L2BlockContext)
    (lgs : list L2BlockL2Logs) (w w' : World DB) :
  process' blocks lgs w = Ok tt w' -> blocks <> [] ->
  exists sk txss,
    getAccountPrivateKey publicKey = Returns sk /\
    Forall2
      (fun x txs =>
         NoDup (pertainingTxs sk (snd x)) /\
         (forall t, t ∈ pertainingTxs sk (snd x) <-> ownsNoteOf sk (snd x) t) /\
         Forall2
           (fun t tx =>
              origin tx = address /\
              blockNumber tx = number (block (fst x)) /\
              (is_Some (tx_contractAddress tx) <->
                 firstDeploymentNonZero (fst x) t /\ ownsNoteOf sk (snd x) t))
           (pertainingTxs sk (snd x)) txs)
      (zip blocks lgs) txss /\
    (concat txss <> [] -> Returned (AddTxs (concat txss)) ∈ newEvents w w').
Proof.
  intros Hrun Hne.
  destruct (process_Ok_shape _ _ _ _ Hrun Hne)
    as (sk & data & txss & removed & dBefore & Hsk & HF & HFt & _ & Hcalls).
  exists sk, txss. split; [exact Hsk|]. split.
  - eapply Forall2_trans; [|exact HF|exact HFt].
    intros [ctx lg] pd txs (Hctx & Hp & _) Htxs. simpl in *.
    unfold txsOf in Htxs. rewrite Hctx, Hp in Htxs. fold (pertainingTxs sk lg) in Htxs.
    split; [apply pertainingAfter_NoDup; constructor|].
    split; [intros t; apply pertaining_owns|].
    assert (Hown : Forall (ownsNoteOf sk lg) (pertainingTxs sk lg)).
    { apply Forall_forall. intros t Ht. apply pertaining_owns. exact Ht. }
    revert Hown. induction Htxs as [|t tx ts txs Htx _ IH]; intros Hown; constructor.
    + destruct Htx as (_ & _ & Hnum & Horigin & l2tx & first & Hl & Hf & Hset).
      split; [exact Horigin|]. split; [exact Hnum|].
      apply Forall_cons in Hown as [Ht _]. rewrite Hset. split.
      * intros Hz. split; [|exact Ht]. exists l2tx, first. auto.
      * intros [(l2tx' & first' & Hl' & Hf' & Hz) _].
        rewrite Hl in Hl'. injection Hl' as <-.
        rewrite Hf in Hf'. injection Hf' as <-. exact Hz.
    + apply IH. apply Forall_cons in Hown as [_ Hown]. exact Hown.
  - intros Htxs. eapply persistenceCalls_txs; eauto.
Qed.

(** ** The order of the persistence calls *)

(** C8 (amended). In a successful [process] of a non-empty batch the
    persistence calls are, in this order: the insert of the accumulated note
    records, issued only when there is at least one; the insert of the
    accumulated transaction records, issued only when there is at least one;
    and then, always and last, the removal of the nullified notes for the
    engine's public key with the nullifiers of all the blocks of the batch.
    Each of them has returned before the next is issued.  The accumulated
    note records are those of the matched logs of every block, the
    accumulated transaction records those of their pertaining
    transactions. *)
Theorem persistence_calls_in_order (blocks : list L2BlockContext)
    (lgs : list L2BlockL2Logs) (w w' : World DB) :
  process' blocks lgs w = Ok tt w' -> blocks <> [] ->
  exists sk data txss,
    getAccountPrivateKey publicKey = Returns sk /\
    Forall2 (fun x pd => blockDone sk (fst x) (snd x) pd) (zip blocks lgs) data /\
    Forall2 txsOf data txss /\
    let daos := concat (map noteSpendingInfoDaos data) in
    let txs := concat txss in
    List.filter isPersistence (newEvents w w') =
      match daos with [] => [] | _ => [Returned (AddNoteSpendingInfoBatch daos)] end
      ++ match txs with [] => [] | _ => [Returned (AddTxs txs)] end
      ++ [Returned (RemoveNullifiedNoteSpendingInfo (batchNullifiers blocks) publicKey)].
Proof.
  intros Hrun Hne.
  destruct (process_Ok_shape _ _ _ _ Hrun Hne)
    as (sk & data & txss & removed & dBefore & Hsk & HF & HFt & _ & Hcalls).
  exists sk, data, txss. auto.
Qed.

(** ** Notes spent in the batch that created them *)

Lemma notes_of_owner start (ms : list Match) (ds : list NoteSpendingInfoDao) :
  Forall2 (noteOf start) ms ds -> Forall (fun d => dao_publicKey d = publicKey) ds.
Proof.
  induction 1 as [|m d ms ds (_ & _ & Hpk & _) _ IH]; constructor; assumption.
Qed.

(** C1. After a successful [process] of a non-empty batch on a lawful
    store, the removal request is the last persistence call, it carries the
    nullifiers of every block of the batch and the engine's public key, and
    the insert of the batch's note records (the records of the matched logs,
    all owned by that key) comes before it; so no note record of that owner
    whose nullifier is among those nullifiers is left in the store, and in
    particular none of the records created by this batch. *)
Theorem same_batch_spend `{!LawfulStore DB} (blocks : list L2BlockContext)
    (lgs : list L2BlockL2Logs) (w w' : World DB) :
  process' blocks lgs w = Ok tt w' -> blocks <> [] ->
  exists sk notess earlier,
    getAccountPrivateKey publicKey = Returns sk /\
    Forall2
      (fun x notes =>
         Forall2 (noteOf (nextAvailableLeafIndex (block (fst x)))) (matches sk (snd x)) notes)
      (zip blocks lgs) notess /\
    List.filter isPersistence (newEvents w w') =
      earlier
      ++ [Returned (RemoveNullifiedNoteSpendingInfo (batchNullifiers blocks) publicKey)] /\
    (concat notess <> [] ->
       Returned (AddNoteSpendingInfoBatch (concat notess)) ∈ earlier) /\
    (forall d, d ∈ storedNotes (db w') -> dao_publicKey d = publicKey ->
               nullifier d ∉ batchNullifiers blocks) /\
    (forall d, d ∈ concat notess -> nullifier d ∈ batchNullifiers blocks ->
               d ∉ storedNotes (db w')).
Proof.
  intros Hrun Hne.
  destruct (process_Ok_shape _ _ _ _ Hrun Hne)
    as (sk & data & txss & removed & dBefore & Hsk & HF & _ & Hrem & Hcalls).
  apply removeNullified_spec in Hrem as [Hstored _].
  assert (Hleft : forall d, d ∈ storedNotes (db w') -> dao_publicKey d = publicKey ->
                            nullifier d ∉ batchNullifiers blocks).
  { intros d Hin Hpk Hnf. rewrite Hstored in Hin.
    apply list_elem_of_In, List.filter_In in Hin as [_ Hneg].
    unfold isNullified in Hneg.
    rewrite (bool_decide_eq_true_2 _ Hpk), (bool_decide_eq_true_2 _ Hnf) in Hneg.
    discriminate. }
  exists sk, (map noteSpendingInfoDaos data),
    (match concat (map noteSpendingInfoDaos data) with
     | [] => []
     | _ => [Returned (AddNoteSpendingInfoBatch (concat (map noteSpendingInfoDaos data)))]
     end ++ match concat txss with [] => [] | _ => [Returned (AddTxs (concat txss))] end).
  split; [exact Hsk|]. split.
  { apply Forall2_fmap_r. eapply Forall2_impl; [exact HF|].
    intros [ctx lg] pd (_ & _ & Hn). exact Hn. }
  split; [rewrite Hcalls; unfold persistenceCalls; rewrite <- app_assoc; reflexivity|].
  split.
  { intros Hnotes. apply elem_of_app. left.
    destruct (concat (map noteSpendingInfoDaos data)); [congruence|]. left. }
  split; [exact Hleft|].
  intros d Hd Hnf Hin. apply (Hleft d Hin); [|exact Hnf].
  apply elem_of_concat in Hd as (notes & Hnotes & Hd).
  apply list_elem_of_fmap in Hnotes as (pd & -> & Hpd).
  assert (Hall : Forall (fun pd => Forall (fun d => dao_publicKey d = publicKey)
                                    (noteSpendingInfoDaos pd)) data).
  { eapply Forall2_Forall_r; [exact HF|]. apply Forall_forall.
    intros [ctx lg] _ pd' (_ & _ & Hn). eapply notes_of_owner. exact Hn. }
  rewrite Forall_forall in Hall. specialize (Hall _ Hpd).
  rewrite Forall_forall in Hall. apply Hall. exact Hd.
Qed.

(** ** More on failures *)

Abbreviation persistBatch := (persistBatch (DB := DB) publicKey).
Abbreviation blockWellFormed := (blockWellFormed fromEncryptedBuffer).
Abbreviation storeNeverThrows := (storeNeverThrows (DB := DB)).

Ltac track :=
  repeat first
    [ apply tracks_ret | apply tracks_throw | apply tracks_defined
    | apply tracks_lift | apply tracks_getSyncedToBlock | apply tracks_setSyncedToBlock
    | apply tracks_call
    | apply tracks_dbCall; reflexivity
    | apply tracks_bind; [|intros]
    | apply tracks_forOf; intros
    | apply tracks_forIndex; intros
    | match goal with
      | |- tracks (match ?o with _ => _ end) => destruct o
      end ].

Lemma tracks_process blocks lgs : tracks (process' blocks lgs).
Proof. unfold process. track. Qed.

(** X1. When the key store has no private key for the engine's public key,
    [process] of a non-empty, well-formed batch throws the key store's error
    after that one call: nothing is decrypted, nothing is persisted, the
    watermark and the database are as before. *)
Theorem process_key_unavailable (blocks : list L2BlockContext)
    (lgs : list L2BlockL2Logs) (w : World DB) (e : Error) :
  length blocks = length lgs -> blocks <> [] ->
  getAccountPrivateKey publicKey = Throws e ->
  process' blocks lgs w
  = Throw e (record (Threw (GetAccountPrivateKey publicKey) e) w).
Proof.
  intros Hlen Hne Hkey. rewrite process_unfold by assumption.
  destruct blocks as [|b blocks]; [congruence|].
  destruct lgs as [|lg lgs]; [discriminate|].
  unfold bind. simpl forIndex. unfold bind, processBlockAt, bind. simpl.
  unfold processBlock, bind, call. rewrite Hkey. reflexivity.
Qed.


Lemma processBlocksAndNoteSpendingInfo_stages data :
  processBlocksAndNoteSpendingInfo' data
  = bind (forOf collectBlock' data (mkBatch [] [] [])) persistBatch.
Proof. reflexivity. Qed.

(** The four ways a run of [process] on a non-empty, well-formed batch can
    go: the scan throws, the collection of the records throws, the
    persistence throws, or the run succeeds. *)
Lemma process_stages blocks lgs w :
  length blocks = length lgs -> blocks <> [] ->
  (exists e w1,
     forIndex (processBlockAt' blocks) 0 lgs [] w = Throw e w1 /\
     process' blocks lgs w = Throw e w1) \/
  (exists data w1 e w2,
     forIndex (processBlockAt' blocks) 0 lgs [] w = Ok data w1 /\
     forOf collectBlock' data (mkBatch [] [] []) w1 = Throw e w2 /\
     process' blocks lgs w = Throw e w2) \/
  (exists data w1 b w2 e w3,
     forIndex (processBlockAt' blocks) 0 lgs [] w = Ok data w1 /\
     forOf collectBlock' data (mkBatch [] [] []) w1 = Ok b w2 /\
     persistBatch b w2 = Throw e w3 /\
     process' blocks lgs w = Throw e w3) \/
  (exists data w1 b w2 w3 lastCtx,
     forIndex (processBlockAt' blocks) 0 lgs [] w = Ok data w1 /\
     forOf collectBlock' data (mkBatch [] [] []) w1 = Ok b w2 /\
     persistBatch b w2 = Ok tt w3 /\
     last blocks = Some lastCtx /\
     process' blocks lgs w =
       Ok tt (mkWorld (number (block lastCtx)) (db w3) (remoteBlockHeight w3)
                (history w3 ++ [Returned (Log (LogSynched (number (block lastCtx))))]))).
Proof.
  intros Hlen Hne. rewrite process_unfold by assumption.
  match goal with |- context [match ?m w with _ => _ end] =>
    destruct (m w) as [lastCtx w3|e w3] eqn:Hbody end.
  - right. right. right.
    apply bind_Ok in Hbody as (data & w1 & Hscan & Hbody).
    apply bind_Ok in Hbody as ([] & w3' & Hpersist & Hlast).
    rewrite processBlocksAndNoteSpendingInfo_stages in Hpersist.
    apply bind_Ok in Hpersist as (b & w2 & Hcol & Hp).
    destruct (blocks !! (length blocks - 1)%nat) as [c|] eqn:Hc; [|discriminate].
    injection Hlast as -> ->.
    exists data, w1, b, w2, w3, lastCtx. repeat split; auto.
    rewrite last_lookup.
    replace (pred (length blocks)) with (length blocks - 1)%nat by lia. exact Hc.
  - apply bind_Throw in Hbody as [Hscan|(data & w1 & Hscan & Hbody)].
    { left. eauto. }
    right. apply bind_Throw in Hbody as [Hpersist|([] & w3' & Hpersist & Hlast)].
    + rewrite processBlocksAndNoteSpendingInfo_stages in Hpersist.
      apply bind_Throw in Hpersist as [Hcol|(b & w2 & Hcol & Hp)].
      * left. eauto 10.
      * right. left. eauto 12.
    + exfalso.
      assert (Hsome : is_Some (blocks !! (length blocks - 1)%nat)).
      { apply lookup_lt_is_Some. destruct blocks; [congruence|simpl; lia]. }
      destruct Hsome as (c & Hc). rewrite Hc in Hlast. discriminate.
Qed.

Lemma respects_persistBatch b : respects failsInStore (persistBatch b).
Proof.
  unfold persistBatch, logEach.
  repeat first
    [ apply respects_ret
    | apply respects_log; exact I
    | apply respects_dbCall; [exact I | intros; reflexivity]
    | apply respects_bind; [|intros]
    | apply respects_forOf; intros
    | match goal with
      | |- respects _ (match ?o with _ => _ end) => destruct o
      end ].
Qed.

(** The events of the scan and of the collection of the records. *)
Lemma scan_events blocks lgs w :
  exists evs,
    history (world_of (forIndex (processBlockAt' blocks) 0 lgs [] w)) = history w ++ evs /\
    Forall notPersistence evs /\
    forall c e, Threw c e ∈ evs ->
      forIndex (processBlockAt' blocks) 0 lgs [] w
      = Throw e (world_of (forIndex (processBlockAt' blocks) 0 lgs [] w)).
Proof. destruct (respects_blocks blocks 0 lgs [] w) as (_ & evs & H). eauto. Qed.

Lemma collect_events data w :
  exists evs,
    history (world_of (forOf collectBlock' data (mkBatch [] [] []) w)) = history w ++ evs /\
    Forall notPersistence evs /\
    forall c e, Threw c e ∈ evs ->
      forOf collectBlock' data (mkBatch [] [] []) w
      = Throw e (world_of (forOf collectBlock' data (mkBatch [] [] []) w)).
Proof. destruct (respects_collect data (mkBatch [] [] []) w) as (_ & evs & H). eauto. Qed.

(** X3. When the call that failed in a run of [process] is not a call to the
    store (the key fetch, a decryption, a nullifier derivation), no
    persistence call was issued in that run and the database is as it was
    before the run. *)
Theorem process_scan_failure_before_store (blocks : list L2BlockContext)
    (lgs : list L2BlockL2Logs) (w : World DB) (c : Call) (e : Error) :
  Threw c e ∈ newEvents w (world_of (process' blocks lgs w)) ->
  isPersistenceCall c = false ->
  List.filter isPersistence (newEvents w (world_of (process' blocks lgs w))) = [] /\
  db (world_of (process' blocks lgs w)) = db w.
Proof.
  intros Hin Hc.
  assert (Hnil : List.filter isPersistence
                   (newEvents w (world_of (process' blocks lgs w))) = []);
    [|split; [exact Hnil|];
      destruct (tracks_process blocks lgs w) as (_ & evs & Hh & Hdb);
      apply Hdb; rewrite <- (newEvents_app _ _ _ Hh); exact Hnil].
  destruct (decide (length blocks = length lgs)) as [Hlen|Hlen].
  2:{ rewrite process_length_mismatch in * by assumption. simpl in *.
      unfold newEvents in *. rewrite drop_all in *. reflexivity. }
  destruct (decide (blocks = [])) as [->|Hne].
  { destruct lgs; [|discriminate]. simpl in *.
    unfold newEvents in *. rewrite drop_all in *. reflexivity. }
  destruct (scan_events blocks lgs w) as (evs1 & Hh1 & Hnp1 & Hbad1).
  destruct (process_stages blocks lgs w Hlen Hne)
    as [(e1 & w1 & Hscan & Hr)
       |[(data & w1 & e2 & w2 & Hscan & Hcol & Hr)
        |[(data & w1 & b & w2 & e3 & w3 & Hscan & Hcol & Hp & Hr)
         |(data & w1 & b & w2 & w3 & lastCtx & Hscan & Hcol & Hp & Hlast & Hr)]]];
    rewrite Hr in *; rewrite Hscan in *; simpl in *.
  - rewrite (newEvents_app _ _ _ Hh1). apply filter_notPersistence, Hnp1.
  - destruct (collect_events data w1) as (evs2 & Hh2 & Hnp2 & _).
    rewrite Hcol in Hh2. simpl in Hh2. rewrite Hh1, <- app_assoc in Hh2.
    rewrite (newEvents_app _ _ _ Hh2), List.filter_app.
    rewrite !filter_notPersistence by assumption. reflexivity.
  - exfalso.
    destruct (collect_events data w1) as (evs2 & Hh2 & _ & Hbad2).
    rewrite Hcol in Hh2, Hbad2. simpl in Hh2, Hbad2.
    destruct (respects_persistBatch b w2) as (_ & evs3 & Hh3 & Hfs & _).
    rewrite Hp in Hh3. simpl in Hh3. rewrite Hh2, Hh1, <- !app_assoc in Hh3.
    rewrite (newEvents_app _ _ _ Hh3) in Hin.
    apply elem_of_app in Hin as [Hin|Hin]; [specialize (Hbad1 _ _ Hin); discriminate|].
    apply elem_of_app in Hin as [Hin|Hin]; [specialize (Hbad2 _ _ Hin); discriminate|].
    rewrite Forall_forall in Hfs. specialize (Hfs _ Hin). simpl in Hfs. congruence.
  - exfalso. destruct (process_respects blocks lgs w) as [_ Hprop].
    rewrite Hr in Hprop. simpl in Hprop. specialize (Hprop c e Hin). discriminate.
Qed.

Lemma Threw_in_logs {A} (f : A -> LogLine) (l : list A) c e :
  Threw c e ∈ map (fun d => Returned (Log (f d))) l -> False.
Proof.
  intros Hin. apply list_elem_of_fmap in Hin as (d & Heq & _). discriminate.
Qed.

Ltac not_among :=
  repeat match goal with
    | H : _ ∈ _ ++ _ |- _ => apply elem_of_app in H as [H|H]
    | H : _ ∈ _ :: _ |- _ => apply elem_of_cons in H as [H|H]
    | H : _ ∈ [] |- _ => inversion H
    | H : Threw _ _ ∈ map _ _ |- _ => apply Threw_in_logs in H; contradiction
    | H : Threw _ _ = Returned _ |- _ => discriminate H
    | H : Threw (AddTxs _) _ = Threw (AddNoteSpendingInfoBatch _) _ |- _ => discriminate H
    | H : Threw (AddTxs _) _ = Threw (RemoveNullifiedNoteSpendingInfo _ _) _ |- _ =>
        discriminate H
    end.

(** The persistence of a batch in which the insert of the transaction
    records threw: the note records had been inserted, and stay. *)
Lemma persistBatch_txs_threw b w txs e :
  Threw (AddTxs txs) e ∈ newEvents w (world_of (persistBatch b w)) ->
  txs = txDaos b /\ txs <> [] /\
  (noteSpendingInfoDaosBatch b = [] /\ db (world_of (persistBatch b w)) = db w \/
   noteSpendingInfoDaosBatch b <> [] /\
   addNoteSpendingInfoBatch (noteSpendingInfoDaosBatch b) (db w)
     = Returns (tt, db (world_of (persistBatch b w))) /\
   Returned (AddNoteSpendingInfoBatch (noteSpendingInfoDaosBatch b))
     ∈ newEvents w (world_of (persistBatch b w))).
Proof.
  unfold persistBatch, bind, dbCall, newEvents.
  destruct (noteSpendingInfoDaosBatch b) as [|d daos] eqn:Hn; simpl.
  - destruct (txDaos b) as [|t ts] eqn:Ht; simpl.
    + destruct (removeNullifiedNoteSpendingInfo _ _ (db w)) as [[removed d3]|e3];
        simpl; rewrite ?logEach_run; simpl;
        repeat rewrite <- app_assoc; rewrite drop_app_length; intros Hin; not_among.
    + destruct (addTxs (t :: ts) (db w)) as [[[] d2]|e2]; simpl.
      * destruct (removeNullifiedNoteSpendingInfo _ _ d2) as [[removed d3]|e3];
          simpl; rewrite ?logEach_run; simpl;
          repeat rewrite <- app_assoc; rewrite drop_app_length; intros Hin; not_among.
      * rewrite drop_app_length. intros Hin. not_among.
        injection Hin as -> ->. split; [reflexivity|]. split; [discriminate|]. auto.
  - destruct (addNoteSpendingInfoBatch (d :: daos) (db w)) as [[[] d1]|e1] eqn:Hadd; simpl.
    2:{ rewrite drop_app_length. intros Hin. not_among. }
    rewrite logEach_run. simpl.
    destruct (txDaos b) as [|t ts] eqn:Ht; simpl.
    + destruct (removeNullifiedNoteSpendingInfo _ _ d1) as [[removed d3]|e3];
        simpl; rewrite ?logEach_run; simpl;
        repeat rewrite <- app_assoc; rewrite drop_app_length; intros Hin; not_among.
    + destruct (addTxs (t :: ts) d1) as [[[] d2]|e2]; simpl.
      * destruct (removeNullifiedNoteSpendingInfo _ _ d2) as [[removed d3]|e3];
          simpl; rewrite ?logEach_run; simpl;
          repeat rewrite <- app_assoc; rewrite drop_app_length; intros Hin; not_among.
      * repeat rewrite <- app_assoc. rewrite drop_app_length. intros Hin.
        not_among. injection Hin as -> ->. split; [reflexivity|].
        split; [discriminate|]. right.
        split; [discriminate|]. split; [reflexivity|]. simpl. left.
Qed.

Lemma blockDone_lengths sk ctx lg pd :
  blockDone sk ctx lg pd ->
  (length (userPertainingTxIndices pd) <= length (noteSpendingInfoDaos pd))%nat.
Proof.
  intros (_ & Hp & HF). rewrite Hp, <- (Forall2_length _ _ _ HF).
  apply (pertainingAfter_length (matches sk lg) []).
Qed.

Lemma batch_notes_nonempty (data : list ProcessedData) (txss : list (list TxDao)) :
  Forall (fun pd => (length (userPertainingTxIndices pd)
                     <= length (noteSpendingInfoDaos pd))%nat) data ->
  Forall2 txsOf data txss ->
  concat txss <> [] -> concat (map noteSpendingInfoDaos data) <> [].
Proof.
  intros Hall HF. induction HF as [|pd txs data txss Htxs _ IH]; simpl; [auto|].
  apply Forall_cons in Hall as [Hle Hall]. intros Hne Hnil.
  apply app_eq_nil in Hnil as [Hn1 Hn2].
  apply Forall2_length in Htxs. rewrite Hn1 in Hle. simpl in Hle.
  destruct txs as [|t txs]; [|simpl in Htxs; lia].
  simpl in Hne. exact (IH Hall Hne Hn2).
Qed.

Lemma tracks_scan blocks lgs acc :
  tracks (forIndex (processBlockAt' blocks) 0 lgs acc).
Proof. unfold processBlockAt. track. Qed.

Lemma tracks_collect data acc : tracks (forOf collectBlock' data acc).
Proof. unfold collectBlock. track. Qed.

(** X4. [process] does not undo what it wrote: when the insert of the
    transaction records throws, the run throws that error and the watermark
    stays, but the note records of the batch were inserted before and the
    database of the failed run holds them. *)
Theorem process_keeps_notes_when_txs_fail (blocks : list L2BlockContext)
    (lgs : list L2BlockL2Logs) (w : World DB) (txs : list TxDao) (e : Error) :
  Threw (AddTxs txs) e ∈ newEvents w (world_of (process' blocks lgs w)) ->
  process' blocks lgs w = Throw e (world_of (process' blocks lgs w)) /\
  syncedToBlock (world_of (process' blocks lgs w)) = syncedToBlock w /\
  exists daos,
    daos <> [] /\
    Returned (AddNoteSpendingInfoBatch daos)
      ∈ newEvents w (world_of (process' blocks lgs w)) /\
    addNoteSpendingInfoBatch daos (db w)
      = Returns (tt, db (world_of (process' blocks lgs w))).
Proof.
  intros Hin. destruct (process_respects blocks lgs w) as [Hsync Hprop].
  pose proof (Hprop _ _ Hin) as Hthrow.
  split; [exact Hthrow|]. split; [eapply Hsync; exact Hthrow|].
  destruct (decide (length blocks = length lgs)) as [Hlen|Hlen].
  2:{ rewrite process_length_mismatch in Hin by assumption. simpl in Hin.
      unfold newEvents in Hin. rewrite drop_all in Hin. inversion Hin. }
  destruct (decide (blocks = [])) as [->|Hne].
  { destruct lgs; [|discriminate]. simpl in Hin.
    unfold newEvents in Hin. rewrite drop_all in Hin. inversion Hin. }
  clear Hsync Hthrow.
  destruct (scan_events blocks lgs w) as (evs1 & Hh1 & Hnp1 & _).
  destruct (tracks_scan blocks lgs [] w) as (_ & evs1' & Hh1' & Hdb1).
  assert (Hpers : forall evs, Forall notPersistence evs -> Threw (AddTxs txs) e ∈ evs -> False).
  { intros evs Hall Hx. rewrite Forall_forall in Hall. specialize (Hall _ Hx). discriminate. }
  destruct (process_stages blocks lgs w Hlen Hne)
    as [(e1 & w1 & Hscan & Hr)
       |[(data & w1 & e2 & w2 & Hscan & Hcol & Hr)
        |[(data & w1 & b & w2 & e3 & w3 & Hscan & Hcol & Hp & Hr)
         |(data & w1 & b & w2 & w3 & lastCtx & Hscan & Hcol & Hp & Hlast & Hr)]]];
    rewrite Hr in *; rewrite Hscan in *; simpl in *.
  - exfalso. rewrite (newEvents_app _ _ _ Hh1) in Hin. eauto.
  - exfalso. destruct (collect_events data w1) as (evs2 & Hh2 & Hnp2 & _).
    rewrite Hcol in Hh2. simpl in Hh2. rewrite Hh1, <- app_assoc in Hh2.
    rewrite (newEvents_app _ _ _ Hh2) in Hin.
    apply elem_of_app in Hin as [Hin|Hin]; eauto.
  - destruct (collect_events data w1) as (evs2 & Hh2 & Hnp2 & _).
    destruct (tracks_collect data (mkBatch [] [] []) w1) as (_ & evs2' & Hh2' & Hdb2).
    rewrite Hcol in Hh2, Hh2', Hdb2. simpl in Hh2, Hh2', Hdb2.
    assert (evs1' = evs1) by (eapply app_inv_head; rewrite <- Hh1, <- Hh1'; reflexivity).
    assert (evs2' = evs2) by (eapply app_inv_head; rewrite <- Hh2, <- Hh2'; reflexivity).
    subst evs1' evs2'.
    assert (Hdb : db w2 = db w).
    { rewrite Hdb2, Hdb1; auto using filter_notPersistence. }
    destruct (respects_persistBatch b w2) as (_ & evs3 & Hh3 & _ & _).
    rewrite Hp in Hh3. simpl in Hh3.
    pose proof (newEvents_app _ _ _ Hh3) as Hev3.
    rewrite Hh2, Hh1, <- !app_assoc in Hh3.
    rewrite (newEvents_app _ _ _ Hh3) in Hin |- *.
    apply elem_of_app in Hin as [Hin|Hin]; [exfalso; eauto|].
    apply elem_of_app in Hin as [Hin|Hin]; [exfalso; eauto|].
    pose proof (persistBatch_txs_threw b w2 txs e) as Hback.
    rewrite Hp in Hback. simpl in Hback. rewrite Hev3 in Hback.
    destruct (Hback Hin) as (Htxs & Hne' & [[Hnil _]|(Hnn & Hadd & Hret)]).
    + exfalso. apply blocks_loop in Hscan as (new & -> & HF). simpl in HF.
      apply collect_loop in Hcol as (Hn & _ & txss & Ht & HFt). simpl in *.
      assert (Hall : Forall (fun pd => (length (userPertainingTxIndices pd)
                                        <= length (noteSpendingInfoDaos pd))%nat) new).
      { eapply Forall2_Forall_r; [exact HF|]. apply Forall_forall.
        intros x _ pd (sk & _ & Hd). eapply blockDone_lengths. exact Hd. }
      apply (batch_notes_nonempty _ _ Hall HFt); congruence.
    + exists (noteSpendingInfoDaosBatch b). split; [exact Hnn|]. split.
      * apply elem_of_app. right. apply elem_of_app. right. exact Hret.
      * rewrite <- Hdb. exact Hadd.
  - exfalso. specialize (Hprop _ _ Hin). discriminate.
Qed.

Ltac halt :=
  repeat first
    [ apply halts_ret | apply halts_throw | apply halts_defined
    | apply halts_lift | apply halts_getSyncedToBlock | apply halts_setSyncedToBlock
    | apply halts_call | apply halts_dbCall
    | apply halts_bind; [|intros]
    | apply halts_forOf; intros
    | apply halts_forIndex; intros
    | match goal with
      | |- haltsOnFailure (match ?o with _ => _ end) => destruct o
      end ].

Lemma halts_process blocks lgs : haltsOnFailure (process' blocks lgs).
Proof. unfold process. halt. Qed.

(** X5. [process] stops at the first call that throws: the failed call is the
    last event of the run, every call before it returned, and nothing is
    called after it (no retry, no further block, no persistence). *)
Theorem process_stops_at_first_failure (blocks : list L2BlockContext)
    (lgs : list L2BlockL2Logs) (w : World DB) (c : Call) (e : Error) :
  Threw c e ∈ newEvents w (world_of (process' blocks lgs w)) ->
  exists before,
    newEvents w (world_of (process' blocks lgs w)) = before ++ [Threw c e] /\
    Forall returnedEvent before.
Proof.
  intros Hin. destruct (halts_process blocks lgs w) as (evs & Hh & Hcase).
  rewrite (newEvents_app _ _ _ Hh) in Hin |- *.
  assert (Hno : forall l, Forall returnedEvent l -> Threw c e ∈ l -> False).
  { intros l Hall Hx. rewrite Forall_forall in Hall. exact (Hall _ Hx). }
  destruct (process' blocks lgs w) as [[] w'|e' w']; [exfalso; eauto|].
  destruct Hcase as [Hall|(evs0 & c' & -> & Hall)]; [exfalso; eauto|].
  apply elem_of_app in Hin as [Hin|Hin]; [exfalso; eauto|].
  apply list_elem_of_singleton in Hin. injection Hin as <- <-.
  exists evs0. auto.
Qed.

(** ** More on the scan of a block *)

Lemma pertainingAfter_sorted sk (l : list (nat * Buffer)) : forall k s,
  StronglySorted lt s ->
  (forall x y, x ∈ s -> y ∈ map fst l -> x <= y) ->
  StronglySorted le (map fst l) ->
  StronglySorted lt (pertainingAfter s (matchesFrom sk k l)).
Proof.
  induction l as [|[t buf] l IH]; intros k s Hs Hle Hl; simpl; [exact Hs|].
  inversion Hl as [|? ? Hl' Ht]; subst.
  destruct (decrypted sk buf) as [info|]; simpl.
  - apply IH; [| |exact Hl'].
    + apply setAdd_sorted; [exact Hs|]. intros x Hx. apply Hle; [exact Hx|left].
    + intros x y Hx Hy. apply setAdd_elem in Hx as [Hx| ->].
      * apply Hle; [exact Hx|right; exact Hy].
      * rewrite Forall_forall in Ht. apply Ht. exact Hy.
  - apply IH; [exact Hs| |exact Hl'].
    intros x y Hx Hy. apply Hle; [exact Hx|right; exact Hy].
Qed.

(** X7. The list of pertaining transaction indices that the scan of a block
    produces is in strictly increasing order of transaction index. *)
Theorem pertaining_indices_increasing (ctx : L2BlockContext) (lg : L2BlockL2Logs)
    (w w' : World DB) (pd : ProcessedData) :
  processBlock' ctx lg w = Ok pd w' ->
  StronglySorted lt (userPertainingTxIndices pd).
Proof.
  intros Hrun. apply processBlock_Ok in Hrun as (sk & _ & _ & Hp & _).
  rewrite Hp. unfold matches, flatLogs. apply pertainingAfter_sorted.
  - constructor.
  - intros x y Hx. inversion Hx.
  - apply flatLogsFrom_indices.
Qed.

(** X8. The scan of a block never yields more pertaining transaction indices
    than note records, and yields none exactly when it yields no note: the
    read of the [j]-th note record for the [j]-th pertaining transaction
    (line 172) always finds a record. *)
Theorem pertaining_never_exceed_notes (ctx : L2BlockContext) (lg : L2BlockL2Logs)
    (w w' : World DB) (pd : ProcessedData) :
  processBlock' ctx lg w = Ok pd w' ->
  (length (userPertainingTxIndices pd) <= length (noteSpendingInfoDaos pd))%nat /\
  (userPertainingTxIndices pd = [] <-> noteSpendingInfoDaos pd = []) /\
  forall j, (j < length (userPertainingTxIndices pd))%nat ->
            is_Some (noteSpendingInfoDaos pd !! j).
Proof.
  intros Hrun. apply processBlock_Ok in Hrun as (sk & _ & Hd).
  pose proof (blockDone_lengths _ _ _ _ Hd) as Hle.
  destruct Hd as (_ & Hp & HF).
  split; [exact Hle|]. split.
  - split; intros Hnil.
    + destruct (matches sk lg) as [|m ms] eqn:Hm.
      * inversion HF. reflexivity.
      * exfalso. assert (Hin : m_txIndex m ∈ userPertainingTxIndices pd).
        { rewrite Hp. apply pertainingAfter_elem. right. simpl. left. }
        rewrite Hnil in Hin. inversion Hin.
    + rewrite Hnil in Hle. simpl in Hle.
      destruct (userPertainingTxIndices pd); [reflexivity|simpl in Hle; lia].
  - intros j Hj. apply lookup_lt_is_Some. lia.
Qed.

Lemma processLog_events start sk t st buf w st' w' :
  processLog' start sk GrumpkinCurve t st buf w = Ok st' w' ->
  exists evs,
    history w' = history w ++ evs /\
    decryptAttempts evs = [buf] /\
    List.filter isKeyFetch evs = [] /\
    length (List.filter isNullifierDerivation evs)
      = length (List.filter (decrypts sk) [(t, buf)]).
Proof.
  unfold processLog, decrypts, decrypted, computeSiloedNullifier, bind, call, ret. simpl.
  destruct (fromEncryptedBuffer buf sk GrumpkinCurve) as [[info|]|e]; simpl.
  - destruct (computeNullifier _ _ _) as [inner|e]; [|discriminate]. simpl.
    destruct (siloNullifier _ inner) as [nf|e]; [|discriminate].
    intros [= _ <-]. simpl. eexists. split.
    { repeat rewrite <- app_assoc. reflexivity. }
    simpl. auto.
  - intros [= _ <-]. simpl. eexists. split; [reflexivity|]. simpl. auto.
  - discriminate.
Qed.

Lemma stepFlat_loop_events start sk (l : list (nat * Buffer)) : forall st w st' w',
  forOf (stepFlat start sk) l st w = Ok st' w' ->
  exists evs,
    history w' = history w ++ evs /\
    decryptAttempts evs = map snd l /\
    List.filter isKeyFetch evs = [] /\
    length (List.filter isNullifierDerivation evs)
      = length (List.filter (decrypts sk) l).
Proof.
  induction l as [|[t buf] l IH]; intros st w st' w' Hrun; simpl in Hrun.
  - injection Hrun as _ <-. exists []. rewrite app_nil_r. auto.
  - apply bind_Ok in Hrun as (st1 & w1 & Hstep & Hrest).
    apply processLog_events in Hstep as (evs1 & Hh1 & Ha1 & Hk1 & Hn1).
    apply IH in Hrest as (evs2 & Hh2 & Ha2 & Hk2 & Hn2).
    exists (evs1 ++ evs2). split; [rewrite Hh2, Hh1, app_assoc; reflexivity|].
    rewrite decryptAttempts_app, !List.filter_app, Ha1, Ha2, Hk1, Hk2, length_app, Hn1, Hn2.
    simpl. repeat split. destruct (decrypts sk (t, buf)); reflexivity.
Qed.

(** The calls of the scan of one block. *)
Lemma processBlock_events ctx lg w pd w' :
  processBlock' ctx lg w = Ok pd w' ->
  exists sk evs,
    getAccountPrivateKey publicKey = Returns sk /\
    history w' = history w ++ evs /\
    decryptAttempts evs = map snd (flatLogs lg) /\
    List.filter isKeyFetch evs = [Returned (GetAccountPrivateKey publicKey)] /\
    length (List.filter isNullifierDerivation evs)
      = length (List.filter (decrypts sk) (flatLogs lg)).
Proof.
  unfold processBlock. intros Hrun.
  apply bind_Ok in Hrun as (sk & w1 & Hkey & Hrun).
  apply bind_Ok in Hrun as (curve & w2 & Hcurve & Hrun).
  apply bind_Ok in Hrun as (st & w3 & Hscan & Hret).
  injection Hret as _ <-. destruct curve. rewrite scan_flat in Hscan.
  apply stepFlat_loop_events in Hscan as (evs & Hh & Ha & Hk & Hn).
  unfold call in Hkey, Hcurve.
  destruct (getAccountPrivateKey publicKey) as [sk'|e]; [|discriminate].
  injection Hkey as -> <-. injection Hcurve as <-.
  exists sk, ([Returned (GetAccountPrivateKey publicKey); Returned GrumpkinNew] ++ evs).
  split; [reflexivity|]. split.
  { rewrite Hh. simpl. rewrite <- !app_assoc. reflexivity. }
  rewrite decryptAttempts_app, !List.filter_app, Ha, Hk, length_app, Hn.
  unfold flatLogs. simpl. auto.
Qed.

Lemma blocks_loop_events blocks lgs : forall i acc w data w',
  forIndex (processBlockAt' blocks) i lgs acc w = Ok data w' ->
  exists evs,
    history w' = history w ++ evs /\
    decryptAttempts evs = concat (map (fun lg => map snd (flatLogs lg)) lgs) /\
    length (List.filter isKeyFetch evs) = length lgs /\
    forall sk, getAccountPrivateKey publicKey = Returns sk ->
      length (List.filter isNullifierDerivation evs)
        = length (concat (map (fun lg => List.filter (decrypts sk) (flatLogs lg)) lgs)).
Proof.
  induction lgs as [|lg lgs IH]; intros i acc w data w' Hrun; simpl in Hrun.
  - injection Hrun as _ <-. exists []. rewrite app_nil_r. auto.
  - apply bind_Ok in Hrun as (acc1 & w1 & Hstep & Hrest).
    unfold processBlockAt in Hstep.
    apply bind_Ok in Hstep as (ctx & w0 & Hctx & Hstep).
    apply bind_Ok in Hstep as (pd & w2 & Hblock & Hret).
    destruct (blocks !! i) as [c|]; [|discriminate].
    injection Hctx as -> ->. injection Hret as _ <-.
    apply processBlock_events in Hblock as (sk & evs1 & Hsk & Hh1 & Ha1 & Hk1 & Hn1).
    apply IH in Hrest as (evs2 & Hh2 & Ha2 & Hk2 & Hn2).
    exists (evs1 ++ evs2). split; [rewrite Hh2, Hh1, app_assoc; reflexivity|].
    rewrite decryptAttempts_app, !List.filter_app, !length_app, Ha1, Ha2, Hk1, Hk2.
    simpl. repeat split. intros sk' Hsk'. rewrite Hsk in Hsk'. injection Hsk' as <-.
    rewrite length_app, Hn1, (Hn2 sk Hsk). reflexivity.
Qed.

Lemma respects_collect_afterScan data acc :
  respects afterScan (forOf collectBlock' data acc).
Proof. frame. Qed.

Lemma respects_persistBatch_afterScan b : respects afterScan (persistBatch b).
Proof. unfold persistBatch, logEach, log. frame. Qed.

(** X6. In a successful [process] the decryption is tried on every raw buffer
    of every block exactly once, in block order and within a block in the
    order transactions, function-log groups, buffers, whether or not earlier
    buffers decrypted; the private key is fetched once for every block of
    the batch; and a nullifier is derived once for every buffer that
    decrypts, and for no other. *)
Theorem process_calls_of_scan (blocks : list L2BlockContext)
    (lgs : list L2BlockL2Logs) (w w' : World DB) :
  process' blocks lgs w = Ok tt w' -> blocks <> [] ->
  exists sk,
    getAccountPrivateKey publicKey = Returns sk /\
    decryptAttempts (newEvents w w')
      = concat (map (fun lg => map snd (flatLogs lg)) lgs) /\
    length (List.filter isKeyFetch (newEvents w w')) = length blocks /\
    length (List.filter isNullifierDerivation (newEvents w w'))
      = length (concat (map (fun lg => List.filter (decrypts sk) (flatLogs lg)) lgs)).
Proof.
  intros Hrun Hne.
  destruct (process_Ok_shape _ _ _ _ Hrun Hne) as (sk & _ & _ & _ & _ & Hsk & _).
  destruct (process_Ok_inv _ _ _ _ Hrun Hne)
    as (Hlen & data & w1 & w2 & lastCtx & Hscan & Hpersist & Hlast & ->).
  apply blocks_loop_events in Hscan as (evs1 & Hh1 & Ha1 & Hk1 & Hn1).
  rewrite processBlocksAndNoteSpendingInfo_stages in Hpersist.
  apply bind_Ok in Hpersist as (b & w1' & Hcol & Hp).
  destruct (respects_collect_afterScan data (mkBatch [] [] []) w1) as (_ & evs2 & Hh2 & Hq2 & _).
  rewrite Hcol in Hh2. simpl in Hh2.
  destruct (respects_persistBatch_afterScan b w1') as (_ & evs3 & Hh3 & Hq3 & _).
  rewrite Hp in Hh3. simpl in Hh3.
  apply afterScan_quiet in Hq2 as (Ha2 & Hk2 & Hn2).
  apply afterScan_quiet in Hq3 as (Ha3 & Hk3 & Hn3).
  exists sk. split; [exact Hsk|].
  unfold newEvents. simpl. rewrite Hh3, Hh2, Hh1, <- !app_assoc, drop_app_length.
  rewrite !decryptAttempts_app, !List.filter_app, !length_app.
  rewrite Ha1, Ha2, Ha3, Hk1, Hk2, Hk3, Hn2, Hn3, (Hn1 sk Hsk), Hlen.
  simpl. rewrite !app_nil_r, !Nat.add_0_r. auto.
Qed.

(** ** More on the transaction records *)

Lemma process_Ok_batch blocks lgs w w' :
  process' blocks lgs w = Ok tt w' -> blocks <> [] ->
  exists data w1 b w2,
    forIndex (processBlockAt' blocks) 0 lgs [] w = Ok data w1 /\
    forOf collectBlock' data (mkBatch [] [] []) w1 = Ok b w2 /\
    List.filter isPersistence (newEvents w w')
      = persistenceCalls (noteSpendingInfoDaosBatch b) (txDaos b) (batch_newNullifiers b).
Proof.
  intros Hrun Hne.
  destruct (process_Ok_inv _ _ _ _ Hrun Hne)
    as (Hlen & data & w1 & w2 & lastCtx & Hscan & Hpersist & Hlast & ->).
  destruct (scan_events blocks lgs w) as (evs1 & Hh1 & Hnp1 & _).
  rewrite Hscan in Hh1. simpl in Hh1.
  apply persist_Ok in Hpersist as (b & w1' & removed & dBefore & Hcol & Hrem & _ & Hh2).
  destruct (collect_events data w1) as (evs2 & Hh3 & Hnp2 & _).
  rewrite Hcol in Hh3. simpl in Hh3.
  exists data, w1, b, w1'. split; [exact Hscan|]. split; [exact Hcol|].
  unfold newEvents. simpl. rewrite Hh2, Hh3, Hh1.
  rewrite <- !app_assoc, drop_app_length.
  rewrite !List.filter_app, (filter_notPersistence _ Hnp1), (filter_notPersistence _ Hnp2).
  rewrite <- (persistence_events_filter _ _ _ removed), !List.filter_app.
  change (List.filter isPersistence [Returned (Log (LogSynched (number (block lastCtx))))])
    with (@nil Event).
  rewrite !app_nil_r. reflexivity.
Qed.

Lemma processTx_deployed ctx daos j t acc w txs w' :
  processTx' ctx daos j t acc w = Ok txs w' ->
  exists tx,
    txs = acc ++ [tx] /\
    forall a, tx_contractAddress tx = Some a ->
              exists d, daos !! j = Some d /\ a = contractAddress (dao_info d).
Proof.
  unfold processTx. intros Hrun.
  apply bind_Ok in Hrun as (h & w1 & _ & Hrun).
  apply bind_Ok in Hrun as ([] & w2 & _ & Hrun).
  apply bind_Ok in Hrun as (l2tx & w3 & _ & Hrun).
  apply bind_Ok in Hrun as (first & w4 & _ & Hrun).
  apply bind_Ok in Hrun as (deployed & w5 & Hdep & Hret).
  injection Hret as <- _. eexists. split; [reflexivity|]. simpl.
  intros a ->. destruct (negb (isZero (cd_contractAddress first))); [|discriminate].
  apply bind_Ok in Hdep as (d & w6 & Hd & Hret).
  destruct (daos !! j) as [d'|]; [|discriminate].
  injection Hd as -> _. injection Hret as <-. eauto.
Qed.

Lemma txs_loop_deployed ctx daos (ts : list nat) : forall j0 acc w txs w',
  forIndex (processTx' ctx daos) j0 ts acc w = Ok txs w' ->
  exists new,
    txs = acc ++ new /\ length new = length ts /\
    forall i tx a,
      new !! i = Some tx -> tx_contractAddress tx = Some a ->
      exists d, daos !! (j0 + i)%nat = Some d /\ a = contractAddress (dao_info d).
Proof.
  induction ts as [|t ts IH]; intros j0 acc w txs w' Hrun; simpl in Hrun.
  - injection Hrun as <- _. exists []. rewrite app_nil_r. repeat split.
    intros i tx a Hi. destruct i; discriminate.
  - apply bind_Ok in Hrun as (acc1 & w1 & Hstep & Hrest).
    apply processTx_deployed in Hstep as (tx0 & -> & Htx0).
    apply IH in Hrest as (new & -> & Hlen & Hnew).
    exists (tx0 :: new). split; [rewrite <- app_assoc; reflexivity|].
    split; [simpl; congruence|].
    intros [|i] tx a Hi Ha; simpl in Hi.
    + injection Hi as <-. rewrite Nat.add_0_r. auto.
    + replace (j0 + S i)%nat with (S j0 + i)%nat by lia. eauto.
Qed.

Lemma collect_loop_deployed (data : list ProcessedData) : forall acc w b w',
  forOf collectBlock' data acc w = Ok b w' ->
  exists txss, txDaos b = txDaos acc ++ concat txss /\ Forall2 deployedFromNote data txss.
Proof.
  induction data as [|pd data IH]; intros acc w b w' Hrun; simpl in Hrun.
  - injection Hrun as <- _. exists []. simpl. rewrite app_nil_r. split; [reflexivity|constructor].
  - apply bind_Ok in Hrun as (acc1 & w1 & Hstep & Hrest).
    unfold collectBlock in Hstep.
    apply bind_Ok in Hstep as (txs & w2 & Htxs & Hret). injection Hret as <- _.
    apply txs_loop_deployed in Htxs as (new & -> & Hlen & Hnew).
    apply IH in Hrest as (txss & Ht & HF). simpl in Ht.
    exists (new :: txss). simpl. split; [rewrite Ht, <- !app_assoc; reflexivity|].
    constructor; [|exact HF]. split; [exact Hlen|]. exact Hnew.
Qed.

(** X9. The deployed-contract address of a transaction record, when it is set,
    is the contract address of the note record at the same position of the
    block: the [j]-th transaction record of a block takes it from the
    [j]-th note record of that block, whichever transaction that note came
    from. *)
Theorem deployed_address_from_jth_note (blocks : list L2BlockContext)
    (lgs : list L2BlockL2Logs) (w w' : World DB) :
  process' blocks lgs w = Ok tt w' -> blocks <> [] ->
  exists data txss,
    Forall2 blockScanned (zip blocks lgs) data /\
    Forall2 deployedFromNote data txss /\
    (concat txss <> [] -> Returned (AddTxs (concat txss)) ∈ newEvents w w').
Proof.
  intros Hrun Hne.
  destruct (process_Ok_batch _ _ _ _ Hrun Hne) as (data & w1 & b & w2 & Hscan & Hcol & Hcalls).
  apply blocks_loop in Hscan as (new & -> & HF). simpl in HF, Hcol. rewrite drop_0 in HF.
  apply collect_loop_deployed in Hcol as (txss & Ht & HFt). simpl in Ht.
  exists new, txss. split; [exact HF|]. split; [exact HFt|].
  intros Hnn. rewrite <- Ht. eapply persistenceCalls_txs; [exact Hcalls|].
  rewrite Ht. exact Hnn.
Qed.

(** ** Processing and then asking *)

(** X10. After a successful [process] of a batch whose last block has the number
    that the node reports as its height, [isSynchronised] answers [true]. *)
Theorem synchronised_after_process (blocks : list L2BlockContext)
    (lgs : list L2BlockL2Logs) (w w' : World DB) (lastCtx : L2BlockContext) :
  process' blocks lgs w = Ok tt w' ->
  last blocks = Some lastCtx ->
  remoteBlockHeight w = Returns (number (block lastCtx)) ->
  isSynchronised w' = Ok true (record (Returned GetBlockHeight) w').
Proof.
  intros Hrun Hlast Hnode.
  assert (Hne : blocks <> []) by (intros ->; discriminate).
  destruct (tracks_process blocks lgs w) as (Hn & _).
  rewrite Hrun in Hn. simpl in Hn.
  destruct (process_Ok_inv _ _ _ _ Hrun Hne)
    as (_ & data & w1 & w2 & c & _ & _ & Hlast' & Hw').
  rewrite Hlast in Hlast'. injection Hlast' as <-.
  unfold isSynchronised, bind, getBlockHeight, call. rewrite Hn, Hnode. simpl.
  rewrite Hw'. simpl. rewrite Z.eqb_refl. reflexivity.
Qed.

(** ** When [process] succeeds *)

Section Progress.

Variable sk : PrivateKey.
Hypothesis key_returns : getAccountPrivateKey publicKey = Returns sk.
Hypothesis decryption_returns :
  forall buf, exists o, fromEncryptedBuffer buf sk GrumpkinCurve = Returns o.
Hypothesis computeNullifier_returns :
  forall c slot items, exists n, computeNullifier c slot items = Returns n.
Hypothesis siloNullifier_returns :
  forall c n, exists m, siloNullifier c n = Returns m.

Lemma processLog_total start t st buf w :
  exists st' w', processLog' start sk GrumpkinCurve t st buf w = Ok st' w'.
Proof using decryption_returns computeNullifier_returns siloNullifier_returns.
  unfold processLog, computeSiloedNullifier, bind, call, ret.
  destruct (decryption_returns buf) as ([info|] & ->); simpl; [|eauto].
  destruct (computeNullifier_returns (contractAddress info) (storageSlot info)
              (notePreimage info)) as (inner & ->). simpl.
  destruct (siloNullifier_returns (contractAddress info) inner) as (nf & ->). eauto.
Qed.

Lemma processBlock_total ctx lg w :
  exists pd w', processBlock' ctx lg w = Ok pd w'.
Proof using key_returns decryption_returns computeNullifier_returns siloNullifier_returns.
  unfold processBlock, bind at 1, call. rewrite key_returns.
  unfold bind at 1. simpl. unfold bind.
  match goal with |- context [forIndex ?f 0 ?l ?a ?w0] =>
    destruct (forOf_total (stepFlat (nextAvailableLeafIndex (block ctx)) sk)
                (flatLogsFrom 0 (txLogs lg))) with (acc := a) (w := w0)
      as (st & w3 & Hscan)
  end.
  { apply Forall_forall. intros [t buf] _ acc w0. apply processLog_total. }
  rewrite scan_flat, Hscan. unfold ret. eauto.
Qed.

Lemma scan_total blocks lgs : forall i acc w,
  (i + length lgs <= length blocks)%nat ->
  exists data w', forIndex (processBlockAt' blocks) i lgs acc w = Ok data w'.
Proof using key_returns decryption_returns computeNullifier_returns siloNullifier_returns.
  intros i acc w Hle. apply forIndex_total.
  intros k lg acc' w0 Hk. unfold processBlockAt, bind.
  assert (Hsome : is_Some (blocks !! (i + k)%nat)).
  { apply lookup_lt_is_Some. apply lookup_lt_Some in Hk. lia. }
  destruct Hsome as (ctx & ->). simpl.
  destruct (processBlock_total ctx lg w0) as (pd & w1 & ->). unfold ret. eauto.
Qed.

Lemma processTx_total ctx daos j t acc w :
  is_Some (getTxHash ctx t) ->
  (exists l2tx, block_txs (block ctx) !! t = Some l2tx /\
                is_Some (newContractData l2tx !! 0%nat)) ->
  is_Some (daos !! j) ->
  exists txs w', processTx' ctx daos j t acc w = Ok txs w'.
Proof.
  intros (h & Hh) (l2tx & Hl & (first & Hf)) (d & Hd).
  unfold processTx, bind, log, call, getTx. rewrite Hh, Hl. simpl. rewrite Hf. simpl.
  rewrite Hd. simpl. destruct (negb (isZero (cd_contractAddress first))); unfold ret; eauto.
Qed.

Lemma collectBlock_total sk' x pd acc w :
  blockWellFormed sk' x -> blockDone sk' (fst x) (snd x) pd ->
  exists b w', collectBlock' acc pd w = Ok b w'.
Proof.
  intros Hwf Hd. pose proof (blockDone_lengths _ _ _ _ Hd) as Hle.
  destruct Hd as (Hctx & Hp & _). unfold collectBlock, bind.
  destruct (forIndex_total (processTx' (blockContext pd) (noteSpendingInfoDaos pd))
              (userPertainingTxIndices pd) 0) with (acc := txDaos acc) (w := w)
    as (txs & w1 & ->); [|unfold ret; eauto].
  intros k t acc' w0 Hk. simpl.
  assert (Hown : ownsNoteOf sk' (snd x) t).
  { apply pertaining_owns. rewrite <- Hp. eapply list_elem_of_lookup_2. exact Hk. }
  destruct (Hwf t Hown) as (Hhash & Htx). rewrite Hctx.
  apply processTx_total; [exact Hhash|exact Htx|].
  apply lookup_lt_is_Some. apply lookup_lt_Some in Hk. lia.
Qed.

Lemma persistBatch_total b w :
  storeNeverThrows -> exists w', persistBatch b w = Ok tt w'.
Proof.
  intros (Hadd & Htxs & Hrem). unfold persistBatch, bind, dbCall.
  destruct (length (noteSpendingInfoDaosBatch b) =? 0)%nat.
  - simpl. destruct (length (txDaos b) =? 0)%nat; simpl.
    + destruct (Hrem (batch_newNullifiers b) publicKey (db w)) as (r & d' & ->).
      rewrite logEach_run. eauto.
    + destruct (Htxs (txDaos b) (db w)) as (d2 & ->). simpl.
      destruct (Hrem (batch_newNullifiers b) publicKey d2) as (r & d' & ->).
      rewrite logEach_run. eauto.
  - destruct (Hadd (noteSpendingInfoDaosBatch b) (db w)) as (d1 & ->).
    rewrite logEach_run. simpl. destruct (length (txDaos b) =? 0)%nat; simpl.
    + destruct (Hrem (batch_newNullifiers b) publicKey d1) as (r & d' & ->).
      rewrite logEach_run. eauto.
    + destruct (Htxs (txDaos b) d1) as (d2 & ->). simpl.
      destruct (Hrem (batch_newNullifiers b) publicKey d2) as (r & d' & ->).
      rewrite logEach_run. eauto.
Qed.

(** X11. [process] returns successfully whenever the batch is well formed and
    nothing it calls throws: as many log collections as blocks, a key store
    that knows the key, decryption and nullifier derivation that return, a
    store that answers, and block contexts that hold the transactions of
    which the engine owns a note. *)
Theorem process_succeeds (blocks : list L2BlockContext) (lgs : list L2BlockL2Logs)
    (w : World DB) :
  length blocks = length lgs ->
  storeNeverThrows ->
  Forall (blockWellFormed sk) (zip blocks lgs) ->
  exists w', process' blocks lgs w = Ok tt w'.
Proof using key_returns decryption_returns computeNullifier_returns siloNullifier_returns.
  intros Hlen Hstore Hwf.
  destruct (decide (blocks = [])) as [->|Hne].
  { destruct lgs; [|discriminate]. exists w. reflexivity. }
  rewrite process_unfold by assumption. unfold bind.
  destruct (scan_total blocks lgs 0 [] w ltac:(lia)) as (data & w1 & Hscan).
  rewrite Hscan. rewrite processBlocksAndNoteSpendingInfo_stages. unfold bind.
  apply blocks_loop in Hscan as (new & -> & HF). simpl in HF. rewrite drop_0 in HF.
  change ([] ++ new) with new.
  destruct (forOf_total collectBlock' new) with (acc := mkBatch [] [] []) (w := w1)
    as (b & w2 & ->).
  { clear -HF Hwf key_returns. revert Hwf.
    induction HF as [|x pd xs pds (sk' & Hsk' & Hd) _ IH]; intros Hwf; constructor.
    - apply Forall_cons in Hwf as [Hx _]. intros acc w0.
      rewrite key_returns in Hsk'. injection Hsk' as <-.
      eapply collectBlock_total; eauto.
    - apply IH. apply Forall_cons in Hwf as [_ Hxs]. exact Hxs. }
  destruct (persistBatch_total b w2 Hstore) as (w3 & ->).
  assert (Hsome : is_Some (blocks !! (length blocks - 1)%nat)).
  { apply lookup_lt_is_Some. destruct blocks; [congruence|simpl; lia]. }
  destruct Hsome as (c & ->). simpl. eauto.
Qed.

End Progress.

End Properties.

(** * The properties on the concrete scenario *)

(** The scenario behaves as expected: two notes at leaves 100 and 102, one
    transaction record, then block 8 spends the first note. *)
Example scenario_block7 :
  exists w, Scenario.run [Scenario.block7] [Scenario.logs7] (Scenario.world0 Scenario.emptyDB)
            = Ok tt w
    /\ syncedToBlock w = 7%Z
    /\ noteSpendingInfoTable (db w) = [Scenario.note 5 1505 100; Scenario.note 7 1507 102]
    /\ txTable (db w) = [mkTxDao [xa0] [x07] 7 Scenario.owner None].
Proof. eexists. vm_compute. repeat split; reflexivity. Qed.

Example scenario_block8 :
  exists w1 w2,
    Scenario.run [Scenario.block7] [Scenario.logs7] (Scenario.world0 Scenario.emptyDB)
      = Ok tt w1
    /\ Scenario.run [Scenario.block8] [Scenario.logs8] w1 = Ok tt w2
    /\ syncedToBlock w2 = 8%Z
    /\ noteSpendingInfoTable (db w2) = [Scenario.note 7 1507 102].
Proof. do 2 eexists. vm_compute. repeat split; reflexivity. Qed.

Lemma process_length_mismatch_witness :
  length [Scenario.block7] <> length (@nil L2BlockL2Logs) /\
  Scenario.run [Scenario.block7] [] Scenario.start
    = Throw (ErrLengthMismatch 1 0) Scenario.start.
Proof.
  split; [simpl; lia|].
  apply (process_length_mismatch Scenario.pk Scenario.owner Scenario.keyStore
           Scenario.decrypt Scenario.rawNullifier Scenario.silo
           [Scenario.block7] [] Scenario.start).
  simpl; lia.
Defined.

Lemma isSynchronised_iff_equal_witness :
  remoteBlockHeight Scenario.rolledBack = Returns 7%Z /\
  exists b,
    isSynchronised Scenario.rolledBack
      = Ok b (record (Returned GetBlockHeight) Scenario.rolledBack) /\
    (b = true <-> syncedToBlock Scenario.rolledBack = 7%Z) /\
    ((7 < syncedToBlock Scenario.rolledBack)%Z -> b = false).
Proof.
  split; [reflexivity|].
  apply (isSynchronised_iff_equal Scenario.rolledBack 7%Z). reflexivity.
Defined.

Lemma process_failure_is_propagated_witness :
  Threw (AddTxs [mkTxDao [xa0] [x07] 7 Scenario.owner None]) ErrStoreUnavailable
    ∈ newEvents Scenario.flakyStart
        (world_of (Scenario.run [Scenario.block7] [Scenario.logs7] Scenario.flakyStart)) /\
  Scenario.run [Scenario.block7] [Scenario.logs7] Scenario.flakyStart
    = Throw ErrStoreUnavailable
        (world_of (Scenario.run [Scenario.block7] [Scenario.logs7] Scenario.flakyStart)) /\
  syncedToBlock
    (world_of (Scenario.run [Scenario.block7] [Scenario.logs7] Scenario.flakyStart))
    = syncedToBlock Scenario.flakyStart.
Proof.
  assert (Hin : Threw (AddTxs [mkTxDao [xa0] [x07] 7 Scenario.owner None])
                  ErrStoreUnavailable
                ∈ newEvents Scenario.flakyStart
                    (world_of (Scenario.run [Scenario.block7] [Scenario.logs7]
                                 Scenario.flakyStart))).
  { apply (bool_decide_unpack _). vm_compute. exact I. }
  split; [exact Hin|].
  apply (process_failure_is_propagated Scenario.pk Scenario.owner Scenario.keyStore
           Scenario.decrypt Scenario.rawNullifier Scenario.silo
           [Scenario.block7] [Scenario.logs7] Scenario.flakyStart _ _ Hin).
Defined.

Lemma process_sets_watermark_to_last_witness :
  [Scenario.bare 5] <> [] /\
  Scenario.run [Scenario.bare 5] [Scenario.noLogs] Scenario.start
    = Ok tt Scenario.after5 /\
  exists lastCtx,
    last [Scenario.bare 5] = Some lastCtx /\
    syncedToBlock Scenario.after5 = number (block lastCtx) /\
    ((syncedToBlock Scenario.start <= number (block lastCtx))%Z ->
       syncedToBlock Scenario.after5
         = Z.max (syncedToBlock Scenario.start) (number (block lastCtx)) /\
       (syncedToBlock Scenario.start <= syncedToBlock Scenario.after5)%Z).
Proof.
  split; [discriminate|]. split; [vm_compute; reflexivity|].
  apply (process_sets_watermark_to_last Scenario.pk Scenario.owner Scenario.keyStore
           Scenario.decrypt Scenario.rawNullifier Scenario.silo
           [Scenario.bare 5] [Scenario.noLogs] Scenario.start Scenario.after5).
  - discriminate.
  - vm_compute; reflexivity.
Defined.

(** C4, as stated, fails: a successful batch whose last block is 3, handed
    to an engine whose watermark is 5, sets the watermark to 3, which is
    neither the maximum of 5 and 3 nor at least the old value. *)
Lemma watermark_is_not_a_maximum :
  Scenario.run [Scenario.bare 5] [Scenario.noLogs] Scenario.start
    = Ok tt Scenario.after5 /\
  Scenario.run [Scenario.bare 3] [Scenario.noLogs] Scenario.after5
    = Ok tt Scenario.after53 /\
  syncedToBlock Scenario.after5 = 5%Z /\
  syncedToBlock Scenario.after53 = 3%Z /\
  syncedToBlock Scenario.after53 <> Z.max (syncedToBlock Scenario.after5) 3 /\
  (syncedToBlock Scenario.after53 < syncedToBlock Scenario.after5)%Z.
Proof.
  split; [vm_compute; reflexivity|]. split; [vm_compute; reflexivity|].
  split; [reflexivity|]. split; [reflexivity|]. split; [discriminate|reflexivity].
Qed.

Lemma persistence_calls_in_order_witness :
  Scenario.run [Scenario.block7] [Scenario.logs7] Scenario.start
    = Ok tt Scenario.after7 /\
  [Scenario.block7] <> [] /\
  exists sk data txss,
    Scenario.keyStore Scenario.pk = Returns sk /\
    Forall2
      (fun x pd =>
         blockDone Scenario.pk Scenario.decrypt Scenario.rawNullifier Scenario.silo
           sk (fst x) (snd x) pd)
      (zip [Scenario.block7] [Scenario.logs7]) data /\
    Forall2 (txsOf Scenario.owner) data txss /\
    let daos := concat (map noteSpendingInfoDaos data) in
    let txs := concat txss in
    List.filter isPersistence (newEvents Scenario.start Scenario.after7) =
      match daos with [] => [] | _ => [Returned (AddNoteSpendingInfoBatch daos)] end
      ++ match txs with [] => [] | _ => [Returned (AddTxs txs)] end
      ++ [Returned (RemoveNullifiedNoteSpendingInfo
                      (batchNullifiers [Scenario.block7]) Scenario.pk)].
Proof.
  split; [vm_compute; reflexivity|]. split; [discriminate|].
  apply (persistence_calls_in_order Scenario.pk Scenario.owner Scenario.keyStore
           Scenario.decrypt Scenario.rawNullifier Scenario.silo
           [Scenario.block7] [Scenario.logs7] Scenario.start Scenario.after7).
  - vm_compute; reflexivity.
  - discriminate.
Defined.

(** C8, as stated, fails: a successful non-empty batch in which no log
    decrypts issues the removal alone; neither insert is issued. *)
Lemma inserts_are_skipped_when_empty :
  Scenario.run [Scenario.bare 5] [Scenario.noLogs] Scenario.start
    = Ok tt Scenario.after5 /\
  List.filter isPersistence (newEvents Scenario.start Scenario.after5)
    = [Returned (RemoveNullifiedNoteSpendingInfo [] Scenario.pk)] /\
  (forall daos, Returned (AddNoteSpendingInfoBatch daos)
                  ∉ newEvents Scenario.start Scenario.after5) /\
  (forall txs, Returned (AddTxs txs) ∉ newEvents Scenario.start Scenario.after5).
Proof.
  split; [vm_compute; reflexivity|]. split; [vm_compute; reflexivity|].
  split; intros x Hin; apply list_elem_of_In in Hin; vm_compute in Hin;
    repeat (destruct Hin as [Hin|Hin]; [discriminate|]); exact Hin.
Qed.

Lemma decryption_selectivity_witness :
  Scenario.scan Scenario.block7 Scenario.logs7 Scenario.start
    = Ok Scenario.scanned7 Scenario.afterScan7 /\
  exists sk,
    Scenario.keyStore Scenario.pk = Returns sk /\
    length (noteSpendingInfoDaos Scenario.scanned7)
      = length (List.filter (decrypts Scenario.decrypt sk) (flatLogs Scenario.logs7)) /\
    map dao_info (noteSpendingInfoDaos Scenario.scanned7)
      = omap (fun x => decrypted Scenario.decrypt sk (snd x)) (flatLogs Scenario.logs7) /\
    NoDup (userPertainingTxIndices Scenario.scanned7) /\
    forall t, t ∈ userPertainingTxIndices Scenario.scanned7
              <-> ownsNoteOf Scenario.decrypt sk Scenario.logs7 t.
Proof.
  split; [vm_compute; reflexivity|].
  apply (decryption_selectivity Scenario.pk Scenario.keyStore Scenario.decrypt
           Scenario.rawNullifier Scenario.silo
           Scenario.block7 Scenario.logs7 Scenario.start Scenario.afterScan7).
  vm_compute; reflexivity.
Defined.

Lemma leaf_index_of_decrypted_logs_witness :
  Scenario.run [Scenario.block7] [Scenario.logs7] Scenario.start
    = Ok tt Scenario.after7 /\
  [Scenario.block7] <> [] /\
  safeLeafRange (Scenario.block7, Scenario.logs7) /\
  exists sk notess,
    Scenario.keyStore Scenario.pk = Returns sk /\
    Forall2
      (fun x notes =>
         map index notes =
         map (fun i => jsAdd (nextAvailableLeafIndex (block (fst x))) (logIndexAt i))
           (matchedPositions Scenario.decrypt sk (flatLogs (snd x))) /\
         (safeLeafRange x ->
          map index notes =
          map (fun i => (nextAvailableLeafIndex (block (fst x)) + Z.of_nat i)%Z)
            (matchedPositions Scenario.decrypt sk (flatLogs (snd x)))))
      (zip [Scenario.block7] [Scenario.logs7]) notess /\
    (concat notess <> [] ->
       Returned (AddNoteSpendingInfoBatch (concat notess))
         ∈ newEvents Scenario.start Scenario.after7).
Proof.
  split; [vm_compute; reflexivity|]. split; [discriminate|].
  split; [split; vm_compute; discriminate|].
  apply (leaf_index_of_decrypted_logs Scenario.pk Scenario.owner Scenario.keyStore
           Scenario.decrypt Scenario.rawNullifier Scenario.silo
           [Scenario.block7] [Scenario.logs7] Scenario.start Scenario.after7).
  - vm_compute; reflexivity.
  - discriminate.
Defined.

(** C2, as stated, fails: in a successful batch whose block starts at leaf
    2^53 and holds two logs of the engine, at positions 0 and 1, the two
    note records handed to the store both carry the leaf index 2^53; the
    sum 2^53 + 1 is not a number, and the second record does not carry it. *)
Lemma leaf_index_rounds_beyond_exact_range :
  Scenario.run [LimitScenario.blockAtLimit] [LimitScenario.logsAtLimit] Scenario.start
    = Ok tt LimitScenario.afterLimit /\
  nextAvailableLeafIndex (block LimitScenario.blockAtLimit) = (2 ^ 53)%Z /\
  matchedPositions Scenario.decrypt Scenario.sk (flatLogs LimitScenario.logsAtLimit)
    = [0; 1] /\
  List.filter isPersistence (newEvents Scenario.start LimitScenario.afterLimit)
    = [Returned (AddNoteSpendingInfoBatch LimitScenario.notesAtLimit);
       Returned (AddTxs [mkTxDao [xa0] [x07] 7 Scenario.owner None]);
       Returned (RemoveNullifiedNoteSpendingInfo [] Scenario.pk)] /\
  map index LimitScenario.notesAtLimit = [2 ^ 53; 2 ^ 53]%Z /\
  map index LimitScenario.notesAtLimit <>
    map (fun i => (nextAvailableLeafIndex (block LimitScenario.blockAtLimit)
                   + Z.of_nat i)%Z)
      (matchedPositions Scenario.decrypt Scenario.sk
         (flatLogs LimitScenario.logsAtLimit)).
Proof.
  split; [vm_compute; reflexivity|]. split; [reflexivity|].
  split; [vm_compute; reflexivity|]. split; [vm_compute; reflexivity|].
  split; [reflexivity|]. vm_compute. discriminate.
Qed.

Lemma stored_tx_per_pertaining_tx_witness :
  Scenario.run [Scenario.block7] [Scenario.logs7] Scenario.start
    = Ok tt Scenario.after7 /\
  [Scenario.block7] <> [] /\
  exists sk txss,
    Scenario.keyStore Scenario.pk = Returns sk /\
    Forall2
      (fun x txs =>
         NoDup (pertainingTxs Scenario.decrypt sk (snd x)) /\
         (forall t, t ∈ pertainingTxs Scenario.decrypt sk (snd x)
                    <-> ownsNoteOf Scenario.decrypt sk (snd x) t) /\
         Forall2
           (fun t tx =>
              origin tx = Scenario.owner /\
              blockNumber tx = number (block (fst x)) /\
              (is_Some (tx_contractAddress tx) <->
                 firstDeploymentNonZero (fst x) t
                 /\ ownsNoteOf Scenario.decrypt sk (snd x) t))
           (pertainingTxs Scenario.decrypt sk (snd x)) txs)
      (zip [Scenario.block7] [Scenario.logs7]) txss /\
    (concat txss <> [] ->
       Returned (AddTxs (concat txss)) ∈ newEvents Scenario.start Scenario.after7).
Proof.
  split; [vm_compute; reflexivity|]. split; [discriminate|].
  apply (stored_tx_per_pertaining_tx Scenario.pk Scenario.owner Scenario.keyStore
           Scenario.decrypt Scenario.rawNullifier Scenario.silo
           [Scenario.block7] [Scenario.logs7] Scenario.start Scenario.after7).
  - vm_compute; reflexivity.
  - discriminate.
Defined.

Lemma same_batch_spend_witness :
  Scenario.run [Scenario.block7; Scenario.block8] [Scenario.logs7; Scenario.logs8]
    Scenario.start = Ok tt Scenario.after78 /\
  [Scenario.block7; Scenario.block8] <> [] /\
  exists sk notess earlier,
    Scenario.keyStore Scenario.pk = Returns sk /\
    Forall2
      (fun x notes =>
         Forall2 (noteOf Scenario.pk Scenario.rawNullifier Scenario.silo
                    (nextAvailableLeafIndex (block (fst x))))
           (matches Scenario.decrypt sk (snd x)) notes)
      (zip [Scenario.block7; Scenario.block8] [Scenario.logs7; Scenario.logs8]) notess /\
    List.filter isPersistence (newEvents Scenario.start Scenario.after78) =
      earlier
      ++ [Returned (RemoveNullifiedNoteSpendingInfo
                      (batchNullifiers [Scenario.block7; Scenario.block8]) Scenario.pk)] /\
    (concat notess <> [] ->
       Returned (AddNoteSpendingInfoBatch (concat notess)) ∈ earlier) /\
    (forall d, d ∈ storedNotes (db Scenario.after78) -> dao_publicKey d = Scenario.pk ->
               nullifier d ∉ batchNullifiers [Scenario.block7; Scenario.block8]) /\
    (forall d, d ∈ concat notess ->
               nullifier d ∈ batchNullifiers [Scenario.block7; Scenario.block8] ->
               d ∉ storedNotes (db Scenario.after78)).
Proof.
  split; [vm_compute; reflexivity|]. split; [discriminate|].
  apply (same_batch_spend Scenario.pk Scenario.owner Scenario.keyStore
           Scenario.decrypt Scenario.rawNullifier Scenario.silo
           [Scenario.block7; Scenario.block8] [Scenario.logs7; Scenario.logs8]
           Scenario.start Scenario.after78).
  - vm_compute; reflexivity.
  - discriminate.
Defined.

(** In that batch the note of [P0] is created and spent: the store is left
    with the note of [P2] alone. *)
Example scenario_same_batch :
  noteSpendingInfoTable (db Scenario.after78) = [Scenario.note 7 1507 102]
  /\ syncedToBlock Scenario.after78 = 8%Z.
Proof. vm_compute. split; reflexivity. Qed.

(** * The mock block source *)

Section MockBlockSourceProperties.

Variable Block : Type.
Variable mockRandomL2Block : Z -> Block.

Abbreviation Source := (MockBlockSource Block).
Abbreviation newSource := (newMockBlockSource Block mockRandomL2Block).

Lemma fillBlocks_spec (n : nat) : forall (i : Z) (acc : list Block),
  fillBlocks Block mockRandomL2Block n i acc
  = acc ++ map (fun j => mockRandomL2Block (i + Z.of_nat j)%Z) (seq 0 n).
Proof.
  induction n as [|n IH]; intros i acc.
  - simpl. rewrite app_nil_r. reflexivity.
  - cbn [fillBlocks]. rewrite IH. rewrite <- app_assoc. f_equal.
    cbn [seq map app]. rewrite Z.add_0_r. f_equal.
    rewrite <- seq_shift, map_map. apply map_ext. intros j. f_equal. lia.
Qed.

Lemma newSource_blocks (arg : option Z) :
  l2Blocks Block (newSource arg)
  = map (fun j => mockRandomL2Block (Z.of_nat j))
      (seq 0 (Z.to_nat (default 100%Z arg))).
Proof. unfold newMockBlockSource. simpl. rewrite fillBlocks_spec. reflexivity. Qed.

(** X12. The number of the latest block of a fresh source is [numBlocks - 1];
    a source built with a [numBlocks] that is not positive has no block and
    answers [-1]. *)
Theorem mock_latest_block_num (arg : option Z) :
  getLatestBlockNum Block (newSource arg)
  = (Z.max (default 100%Z arg) 0 - 1)%Z.
Proof.
  unfold getLatestBlockNum. rewrite newSource_blocks, length_map, length_seq. lia.
Qed.

Lemma slice_nonneg {A} (l : list A) (from take : Z) :
  (0 <= from)%Z -> (0 <= take)%Z ->
  slice l from (from + take) = firstn (Z.to_nat take) (skipn (Z.to_nat from) l).
Proof.
  intros Hf Ht. unfold slice, sliceIndex.
  destruct (from <? 0)%Z eqn:E1; [apply Z.ltb_lt in E1; lia|].
  destruct (from + take <? 0)%Z eqn:E2; [apply Z.ltb_lt in E2; lia|].
  destruct (decide (from <= Z.of_nat (length l))%Z) as [Hle|Hgt].
  - rewrite (Z.min_l from) by lia.
    destruct (decide (from + take <= Z.of_nat (length l))%Z) as [Hle2|Hgt2].
    + rewrite Z.min_l by lia. f_equal. lia.
    + rewrite Z.min_r by lia. rewrite Nat2Z.id.
      rewrite !firstn_all2; [reflexivity| |]; rewrite length_skipn; lia.
  - rewrite (Z.min_r from) by lia. rewrite Nat2Z.id.
    rewrite !skipn_all2 by lia. rewrite !firstn_nil. reflexivity.
Qed.

(** For a window that starts at a non-negative position, [getL2Blocks]
    returns the blocks at positions [from], [from + 1], ... up to [take] of
    them, and fewer when the source ends first. *)
Lemma mock_getL2Blocks_window (s : Source) (from take : Z) :
  (0 <= from)%Z -> (0 <= take)%Z ->
  getL2Blocks Block s from take
  = firstn (Z.to_nat take) (skipn (Z.to_nat from) (l2Blocks Block s)).
Proof. intros Hf Ht. unfold getL2Blocks. apply slice_nonneg; assumption. Qed.

(** X13. On a fresh source the block at position [i] is the one that
    [mockRandomL2Block i] gave: a window of [take] blocks from [from] holds
    the blocks for [from], [from + 1], ..., cut at [numBlocks]. *)
Theorem mock_getL2Blocks_fresh (arg : option Z) (from take : Z) :
  (0 <= from)%Z -> (0 <= take)%Z ->
  getL2Blocks Block (newSource arg) from take
  = map (fun j => mockRandomL2Block (from + Z.of_nat j)%Z)
      (seq 0 (Z.to_nat (Z.min take (default 100%Z arg - from)))).
Proof.
  intros Hf Ht. rewrite mock_getL2Blocks_window by assumption.
  rewrite newSource_blocks. set (n := default 100%Z arg).
  rewrite skipn_map, firstn_map, drop_seq, take_seq, Nat.add_0_l.
  replace (Init.Nat.min (Z.to_nat take) (Z.to_nat n - Z.to_nat from))
    with (Z.to_nat (Z.min take (n - from))) by lia.
  rewrite <- (Nat.add_0_r (Z.to_nat from)), <- fmap_add_seq.
  change (Nat.add (Z.to_nat from) <$> ?l) with (map (Nat.add (Z.to_nat from)) l).
  rewrite map_map. apply map_ext. intros j. f_equal. lia.
Qed.

(** X14. Two adjacent windows give the same blocks as the one window that
    covers both. *)
Theorem mock_getL2Blocks_adjacent (s : Source) (from a b : Z) :
  (0 <= from)%Z -> (0 <= a)%Z -> (0 <= b)%Z ->
  getL2Blocks Block s from a ++ getL2Blocks Block s (from + a) b
  = getL2Blocks Block s from (a + b).
Proof.
  intros Hf Ha Hb. rewrite !mock_getL2Blocks_window by lia.
  replace (Z.to_nat (from + a)) with (Z.to_nat a + Z.to_nat from)%nat by lia.
  replace (Z.to_nat (a + b)) with (Z.to_nat a + Z.to_nat b)%nat by lia.
  rewrite <- skipn_skipn.
  generalize (skipn (Z.to_nat from) (l2Blocks Block s)) as l.
  generalize (Z.to_nat a) as n. generalize (Z.to_nat b) as m. clear.
  intros m n. induction n as [|n IH]; intros l; [reflexivity|].
  destruct l as [|x l]; simpl.
  - rewrite firstn_nil. reflexivity.
  - f_equal. apply IH.
Qed.

(** X15. Asking for [getLatestBlockNum + 1] blocks from position 0 returns every
    block of the source. *)
Theorem mock_getL2Blocks_all (s : Source) :
  getL2Blocks Block s 0 (getLatestBlockNum Block s + 1) = l2Blocks Block s.
Proof.
  unfold getLatestBlockNum. rewrite mock_getL2Blocks_window by lia.
  simpl skipn. apply firstn_all2. lia.
Qed.

(** X16. For a [take] that is not negative, [getL2Blocks] never returns more
    than [take] blocks, whatever the sign of [from]. *)
Theorem mock_getL2Blocks_length (s : Source) (from take : Z) :
  (0 <= take)%Z ->
  (length (getL2Blocks Block s from take) <= Z.to_nat take)%nat.
Proof.
  intros Ht. unfold getL2Blocks, slice. rewrite length_take, length_drop.
  unfold sliceIndex. generalize (length (l2Blocks Block s)) as n. intros n.
  destruct (Z.ltb_spec from 0); destruct (Z.ltb_spec (from + take) 0); lia.
Qed.

(** X19. A negative [take] does not always give an empty window: when it moves
    the end of the window, [from + take], below zero, that end counts from
    the end of the source, and the window runs from [from] up to
    [-(from + take)] blocks before the end. *)
Theorem mock_getL2Blocks_negative_take (s : Source) (from take : Z) :
  (0 <= from)%Z -> (from + take < 0)%Z ->
  getL2Blocks Block s from take
  = firstn (Z.to_nat (Z.of_nat (length (l2Blocks Block s)) + take))
      (skipn (Z.to_nat from) (l2Blocks Block s)).
Proof.
  intros Hf Hend. unfold getL2Blocks, slice, sliceIndex.
  destruct (Z.ltb_spec from 0); [lia|].
  destruct (Z.ltb_spec (from + take) 0); [|lia].
  destruct (decide (from <= Z.of_nat (length (l2Blocks Block s)))%Z) as [Hle|Hgt].
  - rewrite Z.min_l by lia. f_equal. lia.
  - rewrite Z.min_r by lia. rewrite Nat2Z.id.
    rewrite !skipn_all2 by lia. rewrite !firstn_nil. reflexivity.
Qed.

(** X20. The end of the slice is [from + take], a sum of two numbers: for a
    source of at most 2^53 blocks, the blocks returned for the sum rounded
    to a double are those returned for the exact sum. *)
Theorem mock_getL2Blocks_sum_rounding (s : Source) (from take : Z) :
  (Z.of_nat (length (l2Blocks Block s)) <= maxExact)%Z ->
  slice (l2Blocks Block s) from (jsAdd from take) = getL2Blocks Block s from take.
Proof.
  intros Hlen. unfold getL2Blocks, slice, jsAdd.
  rewrite sliceIndex_rounded by exact Hlen. reflexivity.
Qed.

(** X17. A negative [from] counts from the end of the source, but the end of the
    window, [from + take], is counted from the start as soon as it is not
    negative: such a window of at most the size of the source is empty.  In
    particular [getL2Blocks (-1) 1] does not return the last block. *)
Theorem mock_getL2Blocks_negative_from (s : Source) (from take : Z) :
  (from < 0)%Z -> (0 <= from + take)%Z ->
  (take <= Z.of_nat (length (l2Blocks Block s)))%Z ->
  getL2Blocks Block s from take = [].
Proof.
  intros Hf Hend Htake. unfold getL2Blocks, slice, sliceIndex.
  destruct (from <? 0)%Z eqn:E1; [|apply Z.ltb_ge in E1; lia].
  destruct (from + take <? 0)%Z eqn:E2; [apply Z.ltb_lt in E2; lia|].
  replace (_ - _)%nat with 0%nat by lia. reflexivity.
Qed.

(** X18. When the whole window lies at negative positions, both ends count from
    the end of the source: the window holds [take] blocks starting
    [-from] blocks before the end. *)
Theorem mock_getL2Blocks_from_end (s : Source) (from take : Z) :
  (- Z.of_nat (length (l2Blocks Block s)) <= from)%Z ->
  (0 <= take)%Z -> (from + take < 0)%Z ->
  getL2Blocks Block s from take
  = firstn (Z.to_nat take)
      (skipn (length (l2Blocks Block s) - Z.to_nat (- from)) (l2Blocks Block s)).
Proof.
  intros Hlen Ht Hend. unfold getL2Blocks, slice, sliceIndex.
  destruct (from <? 0)%Z eqn:E1; [|apply Z.ltb_ge in E1; lia].
  destruct (from + take <? 0)%Z eqn:E2; [|apply Z.ltb_ge in E2; lia].
  f_equal; [lia|]. f_equal. lia.
Qed.

End MockBlockSourceProperties.

Lemma mock_getL2Blocks_fresh_witness :
  (0 <= 3)%Z /\ (0 <= 4)%Z /\
  getL2Blocks Z (newMockBlockSource Z (fun i => i) (Some 5%Z)) 3 4
  = map (fun j => (3 + Z.of_nat j)%Z)
      (seq 0 (Z.to_nat (Z.min 4 (default 100%Z (Some 5%Z) - 3)))).
Proof.
  split; [lia|]. split; [lia|].
  apply (mock_getL2Blocks_fresh Z (fun i => i) (Some 5%Z) 3 4); lia.
Defined.

Lemma mock_getL2Blocks_adjacent_witness :
  (0 <= 1)%Z /\ (0 <= 2)%Z /\ (0 <= 1)%Z /\
  getL2Blocks Z MoreScenario.source5 1 2 ++ getL2Blocks Z MoreScenario.source5 (1 + 2) 1
  = getL2Blocks Z MoreScenario.source5 1 (2 + 1).
Proof.
  split; [lia|]. split; [lia|]. split; [lia|].
  apply (mock_getL2Blocks_adjacent Z MoreScenario.source5 1 2 1); lia.
Defined.

Lemma mock_getL2Blocks_length_witness :
  (0 <= 2)%Z /\
  (length (getL2Blocks Z MoreScenario.source5 (-4) 2) <= Z.to_nat 2)%nat.
Proof.
  split; [lia|]. apply (mock_getL2Blocks_length Z MoreScenario.source5 (-4) 2). lia.
Defined.

Lemma mock_getL2Blocks_negative_from_witness :
  (-1 < 0)%Z /\ (0 <= -1 + 1)%Z /\
  (1 <= Z.of_nat (length (l2Blocks Z MoreScenario.source5)))%Z /\
  getL2Blocks Z MoreScenario.source5 (-1) 1 = [].
Proof.
  split; [lia|]. split; [lia|]. split; [vm_compute; discriminate|].
  apply (mock_getL2Blocks_negative_from Z MoreScenario.source5 (-1) 1).
  - lia.
  - lia.
  - vm_compute; discriminate.
Defined.

Lemma mock_getL2Blocks_sum_rounding_witness :
  (Z.of_nat (length (l2Blocks Z MoreScenario.source5)) <= maxExact)%Z /\
  slice (l2Blocks Z MoreScenario.source5) 2 (jsAdd 2 (maxExact - 1))
  = getL2Blocks Z MoreScenario.source5 2 (maxExact - 1).
Proof.
  split; [vm_compute; discriminate|].
  apply (mock_getL2Blocks_sum_rounding Z MoreScenario.source5 2 (maxExact - 1)).
  vm_compute; discriminate.
Defined.

Lemma mock_getL2Blocks_negative_take_witness :
  (0 <= 1)%Z /\ (1 + -2 < 0)%Z /\
  getL2Blocks Z MoreScenario.source5 1 (-2)
  = firstn (Z.to_nat (Z.of_nat (length (l2Blocks Z MoreScenario.source5)) + -2))
      (skipn (Z.to_nat 1) (l2Blocks Z MoreScenario.source5)).
Proof.
  split; [lia|]. split; [lia|].
  apply (mock_getL2Blocks_negative_take Z MoreScenario.source5 1 (-2)); lia.
Defined.

Lemma mock_getL2Blocks_from_end_witness :
  (- Z.of_nat (length (l2Blocks Z MoreScenario.source5)) <= -3)%Z /\
  (0 <= 2)%Z /\ (-3 + 2 < 0)%Z /\
  getL2Blocks Z MoreScenario.source5 (-3) 2
  = firstn (Z.to_nat 2)
      (skipn (length (l2Blocks Z MoreScenario.source5) - Z.to_nat (- -3))
         (l2Blocks Z MoreScenario.source5)).
Proof.
  split; [vm_compute; discriminate|]. split; [lia|]. split; [lia|].
  apply (mock_getL2Blocks_from_end Z MoreScenario.source5 (-3) 2).
  - vm_compute; discriminate.
  - lia.
  - lia.
Defined.

(** With a negative [take] the window is not empty: three of the five
    blocks come back. *)
Example mock_negative_take_blocks :
  getL2Blocks Z MoreScenario.source5 1 (-2) = [1; 2; 3]%Z.
Proof. reflexivity. Qed.

(** * More properties on the concrete scenario *)

Lemma process_key_unavailable_witness :
  length [Scenario.block7] = length [Scenario.logs7] /\
  [Scenario.block7] <> [] /\
  MoreScenario.noKeyStore Scenario.pk = Throws (ErrCollaborator 404) /\
  MoreScenario.runNoKey [Scenario.block7] [Scenario.logs7] Scenario.start
  = Throw (ErrCollaborator 404)
      (record (Threw (GetAccountPrivateKey Scenario.pk) (ErrCollaborator 404))
         Scenario.start).
Proof.
  split; [reflexivity|]. split; [discriminate|]. split; [reflexivity|].
  apply (process_key_unavailable Scenario.pk Scenario.owner MoreScenario.noKeyStore
           Scenario.decrypt Scenario.rawNullifier Scenario.silo
           [Scenario.block7] [Scenario.logs7] Scenario.start (ErrCollaborator 404)).
  - reflexivity.
  - discriminate.
  - reflexivity.
Defined.


Lemma process_scan_failure_before_store_witness :
  Threw (SiloNullifier 500%Z 1005%Z) (ErrCollaborator 2)
    ∈ newEvents Scenario.start
        (world_of (MoreScenario.runBrokenSilo [Scenario.block7] [Scenario.logs7]
                     Scenario.start)) /\
  isPersistenceCall (SiloNullifier 500%Z 1005%Z) = false /\
  List.filter isPersistence
    (newEvents Scenario.start
       (world_of (MoreScenario.runBrokenSilo [Scenario.block7] [Scenario.logs7]
                    Scenario.start))) = [] /\
  db (world_of (MoreScenario.runBrokenSilo [Scenario.block7] [Scenario.logs7]
                  Scenario.start)) = db Scenario.start.
Proof.
  assert (Hin : Threw (SiloNullifier 500%Z 1005%Z) (ErrCollaborator 2)
                ∈ newEvents Scenario.start
                    (world_of (MoreScenario.runBrokenSilo [Scenario.block7]
                                 [Scenario.logs7] Scenario.start))).
  { apply (bool_decide_unpack _). vm_compute. exact I. }
  split; [exact Hin|]. split; [reflexivity|].
  apply (process_scan_failure_before_store Scenario.pk Scenario.owner Scenario.keyStore
           Scenario.decrypt Scenario.rawNullifier MoreScenario.brokenSilo
           [Scenario.block7] [Scenario.logs7] Scenario.start _ _ Hin).
  reflexivity.
Defined.

Lemma process_keeps_notes_when_txs_fail_witness :
  Threw (AddTxs [mkTxDao [xa0] [x07] 7 Scenario.owner None]) ErrStoreUnavailable
    ∈ newEvents Scenario.flakyStart
        (world_of (Scenario.run [Scenario.block7] [Scenario.logs7] Scenario.flakyStart)) /\
  Scenario.run [Scenario.block7] [Scenario.logs7] Scenario.flakyStart
    = Throw ErrStoreUnavailable
        (world_of (Scenario.run [Scenario.block7] [Scenario.logs7] Scenario.flakyStart)) /\
  syncedToBlock
    (world_of (Scenario.run [Scenario.block7] [Scenario.logs7] Scenario.flakyStart))
    = syncedToBlock Scenario.flakyStart /\
  exists daos,
    daos <> [] /\
    Returned (AddNoteSpendingInfoBatch daos)
      ∈ newEvents Scenario.flakyStart
          (world_of (Scenario.run [Scenario.block7] [Scenario.logs7] Scenario.flakyStart)) /\
    addNoteSpendingInfoBatch daos (db Scenario.flakyStart)
      = Returns (tt, db (world_of (Scenario.run [Scenario.block7] [Scenario.logs7]
                                     Scenario.flakyStart))).
Proof.
  assert (Hin : Threw (AddTxs [mkTxDao [xa0] [x07] 7 Scenario.owner None])
                  ErrStoreUnavailable
                ∈ newEvents Scenario.flakyStart
                    (world_of (Scenario.run [Scenario.block7] [Scenario.logs7]
                                 Scenario.flakyStart))).
  { apply (bool_decide_unpack _). vm_compute. exact I. }
  split; [exact Hin|].
  apply (process_keeps_notes_when_txs_fail Scenario.pk Scenario.owner Scenario.keyStore
           Scenario.decrypt Scenario.rawNullifier Scenario.silo
           [Scenario.block7] [Scenario.logs7] Scenario.flakyStart _ _ Hin).
Defined.

Lemma pertaining_indices_increasing_witness :
  MoreScenario.scan9 MoreScenario.block9 MoreScenario.logs9 Scenario.start
    = Ok MoreScenario.scanned9 MoreScenario.afterScan9 /\
  StronglySorted lt (userPertainingTxIndices MoreScenario.scanned9).
Proof.
  split; [vm_compute; reflexivity|].
  apply (pertaining_indices_increasing Scenario.pk Scenario.keyStore MoreScenario.decryptAt
           Scenario.rawNullifier Scenario.silo
           MoreScenario.block9 MoreScenario.logs9 Scenario.start MoreScenario.afterScan9).
  vm_compute; reflexivity.
Defined.

Lemma pertaining_never_exceed_notes_witness :
  MoreScenario.scan9 MoreScenario.block9 MoreScenario.logs9 Scenario.start
    = Ok MoreScenario.scanned9 MoreScenario.afterScan9 /\
  (length (userPertainingTxIndices MoreScenario.scanned9)
   <= length (noteSpendingInfoDaos MoreScenario.scanned9))%nat /\
  (userPertainingTxIndices MoreScenario.scanned9 = []
   <-> noteSpendingInfoDaos MoreScenario.scanned9 = []) /\
  forall j, (j < length (userPertainingTxIndices MoreScenario.scanned9))%nat ->
            is_Some (noteSpendingInfoDaos MoreScenario.scanned9 !! j).
Proof.
  split; [vm_compute; reflexivity|].
  apply (pertaining_never_exceed_notes Scenario.pk Scenario.keyStore MoreScenario.decryptAt
           Scenario.rawNullifier Scenario.silo
           MoreScenario.block9 MoreScenario.logs9 Scenario.start MoreScenario.afterScan9).
  vm_compute; reflexivity.
Defined.

Lemma process_calls_of_scan_witness :
  Scenario.run [Scenario.block7] [Scenario.logs7] Scenario.start
    = Ok tt Scenario.after7 /\
  [Scenario.block7] <> [] /\
  exists sk,
    Scenario.keyStore Scenario.pk = Returns sk /\
    decryptAttempts (newEvents Scenario.start Scenario.after7)
      = concat (map (fun lg => map snd (flatLogs lg)) [Scenario.logs7]) /\
    length (List.filter isKeyFetch (newEvents Scenario.start Scenario.after7))
      = length [Scenario.block7] /\
    length (List.filter isNullifierDerivation (newEvents Scenario.start Scenario.after7))
      = length (concat (map (fun lg => List.filter (decrypts Scenario.decrypt sk) (flatLogs lg))
                          [Scenario.logs7])).
Proof.
  split; [vm_compute; reflexivity|]. split; [discriminate|].
  apply (process_calls_of_scan Scenario.pk Scenario.owner Scenario.keyStore
           Scenario.decrypt Scenario.rawNullifier Scenario.silo
           [Scenario.block7] [Scenario.logs7] Scenario.start Scenario.after7).
  - vm_compute; reflexivity.
  - discriminate.
Defined.

Lemma deployed_address_from_jth_note_witness :
  MoreScenario.run9 [MoreScenario.block9] [MoreScenario.logs9] Scenario.start
    = Ok tt MoreScenario.after9 /\
  [MoreScenario.block9] <> [] /\
  exists data txss,
    Forall2
      (blockScanned Scenario.pk Scenario.keyStore MoreScenario.decryptAt
         Scenario.rawNullifier Scenario.silo)
      (zip [MoreScenario.block9] [MoreScenario.logs9]) data /\
    Forall2 deployedFromNote data txss /\
    (concat txss <> [] ->
     Returned (AddTxs (concat txss)) ∈ newEvents Scenario.start MoreScenario.after9).
Proof.
  split; [vm_compute; reflexivity|]. split; [discriminate|].
  apply (deployed_address_from_jth_note Scenario.pk Scenario.owner Scenario.keyStore
           MoreScenario.decryptAt Scenario.rawNullifier Scenario.silo
           [MoreScenario.block9] [MoreScenario.logs9] Scenario.start MoreScenario.after9).
  - vm_compute; reflexivity.
  - discriminate.
Defined.

(** In block 9 the record of transaction 1, which deploys a contract and
    whose only note is of contract 43, carries the contract address 42: that
    of the second note of the block, which came from transaction 0. *)
Example scenario_deployed_address :
  txTable (db MoreScenario.after9)
  = [mkTxDao [xb0] [x09] 9 Scenario.owner None;
     mkTxDao [xb1] [x09] 9 Scenario.owner (Some 42%Z)]
  /\ map (fun d => contractAddress (dao_info d)) (noteSpendingInfoTable (db MoreScenario.after9))
     = [41; 42; 43]%Z.
Proof. vm_compute. split; reflexivity. Qed.

Lemma synchronised_after_process_witness :
  Scenario.run [Scenario.block7] [Scenario.logs7] MoreScenario.start7
    = Ok tt MoreScenario.after7 /\
  last [Scenario.block7] = Some Scenario.block7 /\
  remoteBlockHeight MoreScenario.start7 = Returns (number (block Scenario.block7)) /\
  isSynchronised MoreScenario.after7
  = Ok true (record (Returned GetBlockHeight) MoreScenario.after7).
Proof.
  split; [vm_compute; reflexivity|]. split; [reflexivity|]. split; [reflexivity|].
  apply (synchronised_after_process Scenario.pk Scenario.owner Scenario.keyStore
           Scenario.decrypt Scenario.rawNullifier Scenario.silo
           [Scenario.block7] [Scenario.logs7] MoreScenario.start7 MoreScenario.after7
           Scenario.block7).
  - vm_compute; reflexivity.
  - reflexivity.
  - reflexivity.
Defined.

Lemma process_succeeds_witness :
  Scenario.keyStore Scenario.pk = Returns Scenario.sk /\
  (forall buf, exists o, Scenario.decrypt buf Scenario.sk GrumpkinCurve = Returns o) /\
  (forall c slot items, exists n, MoreScenario.totalNullifier c slot items = Returns n) /\
  (forall c n, exists m, Scenario.silo c n = Returns m) /\
  length [Scenario.block7] = length [Scenario.logs7] /\
  storeNeverThrows (DB := MemoryDB) /\
  Forall (blockWellFormed Scenario.decrypt Scenario.sk)
    (zip [Scenario.block7] [Scenario.logs7]) /\
  exists w', MoreScenario.runTotal [Scenario.block7] [Scenario.logs7] Scenario.start
             = Ok tt w'.
Proof.
  assert (Hdec : forall buf,
            exists o, Scenario.decrypt buf Scenario.sk GrumpkinCurve = Returns o).
  { intros [|b [|v rest]]; [eexists; reflexivity| |];
      destruct b; eexists; reflexivity. }
  assert (Hnf : forall c slot items,
            exists n, MoreScenario.totalNullifier c slot items = Returns n).
  { intros c slot items. eexists. reflexivity. }
  assert (Hsilo : forall c n, exists m, Scenario.silo c n = Returns m).
  { intros c n. eexists. reflexivity. }
  assert (Hstore : storeNeverThrows (DB := MemoryDB)).
  { repeat split; intros; simpl; eauto. }
  assert (Hwf : Forall (blockWellFormed Scenario.decrypt Scenario.sk)
                  (zip [Scenario.block7] [Scenario.logs7])).
  { constructor; [|constructor]. intros t (txl & fl & buf & Hlk & _).
    destruct t as [|t]; [|destruct t; discriminate Hlk].
    split; [eexists; reflexivity|].
    eexists. split; [reflexivity|]. eexists. reflexivity. }
  split; [reflexivity|]. split; [exact Hdec|]. split; [exact Hnf|].
  split; [exact Hsilo|]. split; [reflexivity|]. split; [exact Hstore|].
  split; [exact Hwf|].
  apply (process_succeeds Scenario.pk Scenario.owner Scenario.keyStore Scenario.decrypt
           MoreScenario.totalNullifier Scenario.silo Scenario.sk
           eq_refl Hdec Hnf Hsilo [Scenario.block7] [Scenario.logs7] Scenario.start
           eq_refl Hstore Hwf).
Defined.

Lemma process_stops_at_first_failure_witness :
  Threw (SiloNullifier 500%Z 1005%Z) (ErrCollaborator 2)
    ∈ newEvents Scenario.start
        (world_of (MoreScenario.runBrokenSilo [Scenario.block7] [Scenario.logs7]
                     Scenario.start)) /\
  exists before,
    newEvents Scenario.start
      (world_of (MoreScenario.runBrokenSilo [Scenario.block7] [Scenario.logs7]
                   Scenario.start))
    = before ++ [Threw (SiloNullifier 500%Z 1005%Z) (ErrCollaborator 2)] /\
    Forall returnedEvent before.
Proof.
  assert (Hin : Threw (SiloNullifier 500%Z 1005%Z) (ErrCollaborator 2)
                ∈ newEvents Scenario.start
                    (world_of (MoreScenario.runBrokenSilo [Scenario.block7]
                                 [Scenario.logs7] Scenario.start))).
  { apply (bool_decide_unpack _). vm_compute. exact I. }
  split; [exact Hin|].
  apply (process_stops_at_first_failure Scenario.pk Scenario.owner Scenario.keyStore
           Scenario.decrypt Scenario.rawNullifier MoreScenario.brokenSilo
           [Scenario.block7] [Scenario.logs7] Scenario.start _ _ Hin).
Defined.
